(** * qtutilities, misc/dbusnotification.cpp: lifecycle of D-Bus notifications

    A shallow embedding of [DBusNotification] and of the image hint codec
    [NotificationImage], followed by the properties of the specification
    that concern them.

    Conventions.
    - [uint] ([IDType]) and [qint32] values are integers in [Z]; the
      wrap-around of a narrowing cast is written out ([toInt32]).
    - A [QString] is its sequence of UTF-16 code units.
    - Objects live in a store indexed by address; the static map
      [pendingNotifications] maps identifiers to addresses, exactly as the
      source maps them to [DBusNotification *].
    - Everything observable from outside is appended to a trace, in program
      order: signals emitted, outbound D-Bus calls, taking and releasing
      [pendingNotificationsMutex], and writes to the static map.
    - Emitting a signal is recorded; the slots that callers connect to it
      are not part of this file and do not run in the model. *)

From Stdlib Require Import ZArith Lia List Bool.
From Stdlib.Strings Require Import Byte Ascii String.
From stdpp Require Import gmap list.

Local Open Scope Z_scope.

(** ** Identifiers *)

(** [using IDType = uint;] *)
Abbreviation IDType := Z.

Definition uintMax : Z := 2 ^ 32 - 1.

(** [std::numeric_limits<IDType>::min()] *)
Definition initialId : IDType := 0.
(** [std::numeric_limits<IDType>::max()] *)
Definition pendingId : IDType := uintMax.
(** [pendingId - 1], unsigned arithmetic *)
Definition pendingId2 : IDType := (pendingId - 1) mod 2 ^ 32.

(** ** QString *)

Abbreviation QChar := N.
Abbreviation QString := (list N).

Definition isEmpty (s : QString) : bool :=
  match s with [] => true | _ => false end.

Fixpoint startsWith (s p : QString) : bool :=
  match p, s with
  | [], _ => true
  | c :: p', d :: s' => N.eqb c d && startsWith s' p'
  | _ :: _, [] => false
  end.

(** [QString::insert(0, p)] and [QString::append(t)] *)
Definition insert0 (p s : QString) : QString := p ++ s.
Definition append (s t : QString) : QString := s ++ t.

(** The three literals of [update]: U+2022, U+2022 U+0020, U+000A U+2022 U+0020. *)
Definition bullet : QString := [8226%N].
Definition bulletSpace : QString := [8226%N; 32%N].
Definition newlineBulletSpace : QString := [10%N; 8226%N; 32%N].

(** ** QImage, as far as the codec uses it

    [QImage] belongs to Qt, not to this repository.  The model below covers
    the formats [Format_RGB32], [Format_ARGB32], [Format_RGB888] and
    [Format_Grayscale8] on a little-endian host, where a 32-bit pixel
    [0xAARRGGBB] is stored as the bytes blue, green, red, alpha and a 24-bit
    pixel as red, green, blue.  Scan lines are [bytesPerLine] apart. *)

Module Qt.

Inductive Format :=
| Format_Invalid
| Format_RGB32
| Format_ARGB32
| Format_RGB888
| Format_Grayscale8.

Record QImage := mkQImage {
  format : Format;
  width : nat;
  height : nat;
  bytesPerLine : nat;
  bits : list byte
}.

(** [QImage()] *)
Definition null : QImage := mkQImage Format_Invalid 0 0 0 [].

Definition isNull (img : QImage) : bool :=
  match format img with Format_Invalid => true | _ => false end.

Definition depthOf (f : Format) : nat :=
  match f with
  | Format_Invalid => 0
  | Format_RGB32 | Format_ARGB32 => 32
  | Format_RGB888 => 24
  | Format_Grayscale8 => 8
  end%nat.

Definition depth (img : QImage) : Z := Z.of_nat (depthOf (format img)).

Definition hasAlphaChannel (img : QImage) : bool :=
  match format img with Format_ARGB32 => true | _ => false end.

(** Scan lines of an image that Qt allocates are padded to 32 bits. *)
Definition stdBytesPerLine (f : Format) (w : nat) : nat :=
  (((w * depthOf f + 31) / 32) * 4)%nat.

Definition sizeInBytes (img : QImage) : Z :=
  Z.of_nat (bytesPerLine img * height img).

Definition scanLine (img : QImage) (y : nat) : list byte :=
  take (bytesPerLine img) (drop (y * bytesPerLine img) (bits img)).

(** A colour, [QRgb], by its four channels. *)
Record QRgb := mkRgb { qAlpha : byte; qRed : byte; qGreen : byte; qBlue : byte }.

Definition pixelOfLine (f : Format) (line : list byte) (x : nat) : option QRgb :=
  match f with
  | Format_Invalid => None
  | Format_RGB32 =>
      match drop (4 * x) line with
      | b :: g :: r :: _ :: _ => Some (mkRgb xff r g b)
      | _ => None
      end
  | Format_ARGB32 =>
      match drop (4 * x) line with
      | b :: g :: r :: a :: _ => Some (mkRgb a r g b)
      | _ => None
      end
  | Format_RGB888 =>
      match drop (3 * x) line with
      | r :: g :: b :: _ => Some (mkRgb xff r g b)
      | _ => None
      end
  | Format_Grayscale8 =>
      match drop x line with
      | v :: _ => Some (mkRgb xff v v v)
      | _ => None
      end
  end.

(** [QImage::pixel(x, y)]; [None] outside the image. *)
Definition pixel (img : QImage) (x y : nat) : option QRgb :=
  if (x <? width img)%nat && (y <? height img)%nat
  then pixelOfLine (format img) (scanLine img y) x
  else None.

(** Red and blue exchanged in [n] consecutive 32-bit pixels. *)
Fixpoint swapLine32 (n : nat) (line : list byte) : list byte :=
  match n with
  | O => []
  | S n' =>
      match line with
      | b0 :: b1 :: b2 :: b3 :: rest => b2 :: b1 :: b0 :: b3 :: swapLine32 n' rest
      | _ => []
      end
  end.

(** Red and blue exchanged in [n] consecutive 24-bit pixels. *)
Fixpoint swapLine24 (n : nat) (line : list byte) : list byte :=
  match n with
  | O => []
  | S n' =>
      match line with
      | b0 :: b1 :: b2 :: rest => b2 :: b1 :: b0 :: swapLine24 n' rest
      | _ => []
      end
  end.

(** [QImage::rgbSwapped()]: a new image of the same format and size with the
    standard scan-line length.  The bytes that pad a 24-bit line are not
    specified by Qt; the model writes zero there. *)
Definition rgbSwapped (img : QImage) : QImage :=
  match format img with
  | Format_Invalid => img
  | Format_Grayscale8 => img
  | Format_RGB32 | Format_ARGB32 =>
      mkQImage (format img) (width img) (height img) (4 * width img)
        (flat_map (fun y => swapLine32 (width img) (scanLine img y))
                  (seq 0 (height img)))
  | Format_RGB888 =>
      let bpl := stdBytesPerLine Format_RGB888 (width img) in
      mkQImage Format_RGB888 (width img) (height img) bpl
        (flat_map (fun y => swapLine24 (width img) (scanLine img y)
                            ++ replicate (bpl - 3 * width img) x00)
                  (seq 0 (height img)))
  end.

Definition isGray (c : QRgb) : bool :=
  Byte.eqb (qRed c) (qGreen c) && Byte.eqb (qGreen c) (qBlue c).

(** [QImage::allGray()] *)
Definition allGray (img : QImage) : bool :=
  forallb (fun y =>
    forallb (fun x =>
      match pixel img x y with Some c => isGray c | None => true end)
      (seq 0 (width img)))
    (seq 0 (height img)).

(** [QImage::isGrayscale()] *)
Definition isGrayscale (img : QImage) : bool :=
  match format img with
  | Format_Invalid => false
  | Format_Grayscale8 => true
  | Format_RGB32 | Format_ARGB32 | Format_RGB888 => allGray img
  end.

(** [QImage(const uchar *data, int width, int height, Format format)]: the
    image reads the caller's buffer; it is null when a dimension is not
    positive or the format is invalid. *)
Definition fromData (data : list byte) (w h : Z) (f : Format) : QImage :=
  if (w <=? 0) || (h <=? 0) || (match f with Format_Invalid => true | _ => false end)
  then null
  else mkQImage f (Z.to_nat w) (Z.to_nat h) (stdBytesPerLine f (Z.to_nat w)) data.

(** What Qt guarantees of an image it hands out: every scan line is inside
    the buffer, a line holds its pixels, and the byte count fits an [int]. *)
Record wf (img : QImage) : Prop := mkWf {
  wf_width : (0 < width img)%nat;
  wf_height : (0 < height img)%nat;
  wf_line : (stdBytesPerLine (format img) (width img) <= bytesPerLine img)%nat;
  wf_bits : length (bits img) = (bytesPerLine img * height img)%nat;
  wf_size : sizeInBytes img < 2 ^ 31
}.

(** Same size and the same colour at every coordinate. *)
Definition pixelIdentical (a b : QImage) : Prop :=
  width a = width b /\ height a = height b /\
  forall x y, (x < width b)%nat -> (y < height b)%nat ->
    is_Some (pixel b x y) /\ pixel a x y = pixel b x y.

(** A colour with red and blue exchanged. *)
Definition swapRB (c : QRgb) : QRgb :=
  mkRgb (qAlpha c) (qBlue c) (qGreen c) (qRed c).

Definition rgbEqb (c d : QRgb) : bool :=
  Byte.eqb (qAlpha c) (qAlpha d) && Byte.eqb (qRed c) (qRed d)
  && Byte.eqb (qGreen c) (qGreen d) && Byte.eqb (qBlue c) (qBlue d).

Definition samePixel (a b : QImage) (x y : nat) : bool :=
  match pixel a x y, pixel b x y with
  | Some c, Some d => rgbEqb c d
  | _, _ => false
  end.

(** [pixelIdentical], computed. *)
Definition pixelIdenticalb (a b : QImage) : bool :=
  (width a =? width b)%nat && (height a =? height b)%nat
  && forallb (fun y => forallb (fun x => samePixel a b x y) (seq 0 (width b)))
       (seq 0 (height b)).

Definition is32bit (f : Format) : Prop := f = Format_RGB32 \/ f = Format_ARGB32.

End Qt.

(** The shape on which [rgbSwapped] of a 32-bit image is determined: every
    line holds its pixels and lies inside the buffer. *)
Definition lines32 (img : Qt.QImage) : Prop :=
  Qt.is32bit (Qt.format img) /\
  (4 * Qt.width img <= Qt.bytesPerLine img)%nat /\
  length (Qt.bits img) = (Qt.bytesPerLine img * Qt.height img)%nat.

(** ** The image hint codec *)

(** [static_cast<qint32>] and [static_cast<int>] of a wider integer *)
Definition toInt32 (z : Z) : Z := (z + 2 ^ 31) mod 2 ^ 32 - 2 ^ 31.

(** [SwappedImage::SwappedImage(const QImage &image) : QImage(image.rgbSwapped())] *)
Definition SwappedImage (image : Qt.QImage) : Qt.QImage := Qt.rgbSwapped image.

(** The D-Bus structure written by [operator<<], in its order:
    width, height, rowstride, hasAlpha, bitsPerSample, channels, data. *)
Definition WireImage : Type := Z * Z * Z * bool * Z * Z * list byte.

Record NotificationImage := mkNotificationImage {
  (** the [QDBusArgument] base class, empty until [*this << *this] *)
  argument : option WireImage;
  width : Z;
  height : Z;
  rowstride : Z;
  hasAlpha : bool;
  channels : Z;
  bitsPerSample : Z;
  data : list byte;
  isValid : bool
}.

(** [NotificationImage::NotificationImage()]: only [isValid] is initialised;
    the model gives the other members the value zero. *)
Definition NotificationImage_default : NotificationImage :=
  mkNotificationImage None 0 0 0 false 0 0 [] false.

(** [NotificationImage::NotificationImage(const QImage &image)].  A negative
    length passed to [QByteArray] is taken as an empty buffer. *)
Definition NotificationImage_ofQImage (image : Qt.QImage) : NotificationImage :=
  let width := Z.of_nat (Qt.width image) in
  let height := Z.of_nat (Qt.height image) in
  let rowstride := toInt32 (Z.of_nat (Qt.bytesPerLine image)) in
  let hasAlpha := Qt.hasAlphaChannel image in
  let channels := if Qt.isGrayscale image then 1 else if hasAlpha then 4 else 3 in
  let bitsPerSample := Z.quot (Qt.depth image) channels in
  let data := take (Z.to_nat (toInt32 (Qt.sizeInBytes image))) (Qt.bits image) in
  let isValid := negb (Qt.isNull image) in
  mkNotificationImage
    (if isValid
     then Some (width, height, rowstride, hasAlpha, bitsPerSample, channels, data)
     else None)
    width height rowstride hasAlpha channels bitsPerSample data isValid.

(** [NotificationImage::NotificationImage(SwappedImage image)] *)
Definition NotificationImage_ofSwapped (image : Qt.QImage) : NotificationImage :=
  NotificationImage_ofQImage image.

(** [NotificationImage::toQImage()] *)
Definition toQImage (n : NotificationImage) : Qt.QImage :=
  if isValid n
  then Qt.rgbSwapped
         (Qt.fromData (data n) (width n) (height n)
            (if hasAlpha n then Qt.Format_ARGB32 else Qt.Format_RGB32))
  else Qt.null.

(** The two directions as the specification names them;
    [encode] is the expression of [setImage]. *)
Definition encode (b : Qt.QImage) : NotificationImage :=
  NotificationImage_ofSwapped (SwappedImage b).
Definition decode (n : NotificationImage) : Qt.QImage := toQImage n.

(** ** The notification object and the process-wide state *)

Abbreviation Addr := nat.
Abbreviation Watcher := nat.

(** A [QStringLiteral] of ASCII characters. *)
Definition QStringLiteral (s : string) : QString :=
  map N_of_ascii (list_ascii_of_string s).

(** The values a hint can hold, as far as this file stores them. *)
Inductive QVariant :=
| VString (s : QString)
| VInt (z : Z)
| VImage (img : NotificationImage).

(** Modelled from the spec: the enumeration [NotificationCloseReason] is
    declared in dbusnotification.h, which is not among the sources.  The
    specification names [Undefined], [Expired], [Dismissed],
    [ClosedByRequest] and [ActionInvoked] and fixes the reason codes
    1 = Expired, 2 = Dismissed, 3 = ClosedByRequest.  (The comment on [hide]
    in the source calls the third one [Manually].) *)
Inductive NotificationCloseReason :=
| Undefined
| Expired
| Dismissed
| ClosedByRequest
| ActionInvoked.

(** Modelled from the spec: [static_cast<NotificationCloseReason>(reason)],
    with the enumerator values of the absent header taken from the reason
    codes above.  The source applies the cast to 1, 2 and 3 only. *)
Definition castCloseReason (reason : Z) : NotificationCloseReason :=
  match reason with
  | 1 => Expired
  | 2 => Dismissed
  | 3 => ClosedByRequest
  | _ => Undefined
  end.

(** The icons [setIcon] distinguishes; [OtherIcon] is its [default:] case. *)
Inductive NotificationIcon := Information | Warning | Critical | OtherIcon.

Record DBusNotification := mkDBusNotification {
  m_id : IDType;
  m_watcher : option Watcher;
  m_applicationName : QString;
  m_title : QString;
  m_msg : QString;
  m_icon : QString;
  m_timeout : Z;
  m_actions : list QString;
  m_hints : gmap QString QVariant
}.

Definition set_m_id (id : IDType) (n : DBusNotification) : DBusNotification :=
  mkDBusNotification id (m_watcher n) (m_applicationName n) (m_title n) (m_msg n)
    (m_icon n) (m_timeout n) (m_actions n) (m_hints n).

Definition set_m_watcher (o : option Watcher) (n : DBusNotification) : DBusNotification :=
  mkDBusNotification (m_id n) o (m_applicationName n) (m_title n) (m_msg n)
    (m_icon n) (m_timeout n) (m_actions n) (m_hints n).

Definition set_m_msg (s : QString) (n : DBusNotification) : DBusNotification :=
  mkDBusNotification (m_id n) (m_watcher n) (m_applicationName n) (m_title n) s
    (m_icon n) (m_timeout n) (m_actions n) (m_hints n).

Definition set_m_icon (s : QString) (n : DBusNotification) : DBusNotification :=
  mkDBusNotification (m_id n) (m_watcher n) (m_applicationName n) (m_title n) (m_msg n)
    s (m_timeout n) (m_actions n) (m_hints n).

Definition set_m_hints (h : gmap QString QVariant) (n : DBusNotification) : DBusNotification :=
  mkDBusNotification (m_id n) (m_watcher n) (m_applicationName n) (m_title n) (m_msg n)
    (m_icon n) (m_timeout n) (m_actions n) h.

(** The signals of [DBusNotification]. *)
Inductive Signal :=
| shown
| error
| closed (reason : NotificationCloseReason)
| actionInvoked (action : QString).

(** The arguments of [Notify], in the order of the call in [show]. *)
Record NotifyArgs := mkNotifyArgs {
  arg_appName : QString;
  arg_replacesId : IDType;
  arg_icon : QString;
  arg_title : QString;
  arg_body : QString;
  arg_actions : list QString;
  arg_hints : gmap QString QVariant;
  arg_timeout : Z
}.

(** What a run does that the outside can see, in program order.  The
    argument of [CloseNotification] is [None] when the expression that
    computes it has no defined value (a read through an iterator that
    [erase] has invalidated). *)
Inductive Event :=
| MutexLock
| MutexUnlock
| MapInsert (id : IDType) (a : Addr)
| MapErase (id : IDType)
| Emit (sender : Addr) (s : Signal)
| Notify (watcher : Watcher) (parent : Addr) (args : NotifyArgs)
| CloseNotification (id : option IDType)
| GetCapabilities (watcher : Watcher).

Record World := mkWorld {
  (** the live [DBusNotification] objects *)
  objects : gmap Addr DBusNotification;
  (** [static std::map<IDType, DBusNotification *> pendingNotifications] *)
  pendingNotifications : gmap Z Addr;
  (** [s_dbusInterface->isValid()] *)
  interfaceValid : bool;
  (** [QCoreApplication::applicationName()] *)
  applicationName : QString;
  (** the next [QDBusPendingCallWatcher] that [new] returns *)
  nextWatcher : Watcher;
  trace : list Event
}.

Definition record (e : Event) (w : World) : World :=
  mkWorld (objects w) (pendingNotifications w) (interfaceValid w)
    (applicationName w) (nextWatcher w) (trace w ++ [e]).

Definition store (this : Addr) (n : DBusNotification) (w : World) : World :=
  mkWorld (<[this := n]> (objects w)) (pendingNotifications w) (interfaceValid w)
    (applicationName w) (nextWatcher w) (trace w).

Definition destroy (this : Addr) (w : World) : World :=
  mkWorld (delete this (objects w)) (pendingNotifications w) (interfaceValid w)
    (applicationName w) (nextWatcher w) (trace w).

Definition setMap (m : gmap Z Addr) (w : World) : World :=
  mkWorld (objects w) m (interfaceValid w)
    (applicationName w) (nextWatcher w) (trace w).

Definition newWatcher (w : World) : World :=
  mkWorld (objects w) (pendingNotifications w) (interfaceValid w)
    (applicationName w) (S (nextWatcher w)) (trace w).

Definition setInterfaceValid (b : bool) (w : World) : World :=
  mkWorld (objects w) (pendingNotifications w) b
    (applicationName w) (nextWatcher w) (trace w).

(** [notification->m_id = id] through a pointer *)
Definition assignId (a : Addr) (id : IDType) (w : World) : World :=
  mkWorld (alter (set_m_id id) a (objects w)) (pendingNotifications w)
    (interfaceValid w) (applicationName w) (nextWatcher w) (trace w).

(** *** Iterators of [std::map]

    An iterator is [end()] or designates the node of a key.  It can be
    dereferenced as long as that node is in the map; [erase] destroys the
    node, after which [i->first] and [i->second] have no defined value. *)
Definition iterator := option IDType.

Definition find (m : gmap Z Addr) (id : IDType) : iterator :=
  match m !! id with Some _ => Some id | None => None end.

Definition it_first (m : gmap Z Addr) (i : iterator) : option IDType :=
  match i with
  | Some k => match m !! k with Some _ => Some k | None => None end
  | None => None
  end.

Definition it_second (m : gmap Z Addr) (i : iterator) : option Addr :=
  match i with Some k => m !! k | None => None end.

Definition erase (i : iterator) (w : World) : World :=
  match i with
  | Some k => record (MapErase k) (setMap (delete k (pendingNotifications w)) w)
  | None => w
  end.

(** ** Member functions *)

(** The four states of the specification, read off [m_id]. *)
Inductive State :=
| Unassigned
| PendingSingle
| PendingCoalesced
| Assigned (id : IDType).

Definition stateOf (id : IDType) : State :=
  if id =? initialId then Unassigned
  else if id =? pendingId then PendingSingle
  else if id =? pendingId2 then PendingCoalesced
  else Assigned id.

(** [DBusNotification::isPending()] *)
Definition isPending (n : DBusNotification) : bool :=
  (m_id n =? pendingId) || (m_id n =? pendingId2).

(** Modelled from the spec: [isVisible()] is defined in dbusnotification.h,
    which is not among the sources; the specification says it is true iff
    the state is [Assigned]. *)
Definition isVisible (n : DBusNotification) : bool :=
  match stateOf (m_id n) with Assigned _ => true | _ => false end.

(** The constructor taking the icon name; [initInterface] has run, the
    world holds the interface it created. *)
Definition construct (this : Addr) (title icon : QString) (timeout : Z) (w : World) : World :=
  store this (mkDBusNotification initialId None [] title [] icon timeout [] ∅) w.

(** [DBusNotification::setIcon(NotificationIcon)] *)
Definition setIcon (icon : NotificationIcon) (n : DBusNotification) : DBusNotification :=
  match icon with
  | Information => set_m_icon (QStringLiteral "dialog-information"%string) n
  | Warning => set_m_icon (QStringLiteral "dialog-warning"%string) n
  | Critical => set_m_icon (QStringLiteral "dialog-critical"%string) n
  | OtherIcon => n
  end.

(** The constructor taking a [NotificationIcon]. *)
Definition constructWithIcon (this : Addr) (title : QString) (icon : NotificationIcon)
    (timeout : Z) (w : World) : World :=
  store this (setIcon icon (mkDBusNotification initialId None [] title [] [] timeout [] ∅)) w.

(** [DBusNotification::setImage] *)
Definition setImage (image : Qt.QImage) (n : DBusNotification) : DBusNotification :=
  set_m_hints (<[QStringLiteral "image-data"%string := VImage (encode image)]> (m_hints n)) n.

(** [DBusNotification::show()].  Deleting the previous watcher has no effect
    of its own in the model: a reply is only acted upon when its watcher is
    [m_watcher]. *)
Definition show (this : Addr) (w : World) : bool * World :=
  match objects w !! this with
  | None => (false, w)
  | Some n =>
      if isPending n then
        (true, store this (set_m_id pendingId2 n) w)
      else if negb (interfaceValid w) then
        (false, record (Emit this error) w)
      else
        let watcher := nextWatcher w in
        let args := mkNotifyArgs
          (if isEmpty (m_applicationName n) then applicationName w
           else m_applicationName n)
          (m_id n) (m_icon n) (m_title n) (m_msg n) (m_actions n) (m_hints n)
          (m_timeout n) in
        (true,
         store this (set_m_id pendingId (set_m_watcher (Some watcher) n))
           (record (Notify watcher this args) (newWatcher w)))
  end.

(** [DBusNotification::show(const QString &message)] *)
Definition show_message (this : Addr) (message : QString) (w : World) : bool * World :=
  match objects w !! this with
  | None => (false, w)
  | Some n => show this (store this (set_m_msg message n) w)
  end.

(** The message [update] leaves in [m_msg]. *)
Definition updatedMessage (n : DBusNotification) (line : QString) : QString :=
  if (negb (isPending n) && negb (isVisible n)) || isEmpty (m_msg n) then line
  else
    let msg := if negb (startsWith (m_msg n) bullet)
               then insert0 bulletSpace (m_msg n) else m_msg n in
    append (append msg newlineBulletSpace) line.

(** [DBusNotification::update(const QString &line)] *)
Definition update (this : Addr) (line : QString) (w : World) : bool * World :=
  match objects w !! this with
  | None => (false, w)
  | Some n => show this (store this (set_m_msg (updatedMessage n line) n) w)
  end.

(** [DBusNotification::hide()] *)
Definition hide (this : Addr) (w : World) : bool * World :=
  match objects w !! this with
  | None => (false, w)
  | Some n =>
      if negb (m_id n =? 0)
      then (true, record (CloseNotification (Some (m_id n))) w)
      else (false, w)
  end.

(** [DBusNotification::queryCapabilities]: the dispatch; the callback runs
    when the reply arrives. *)
Definition queryCapabilities (w : World) : bool * World :=
  if negb (interfaceValid w) then (false, w)
  else (true, record (GetCapabilities (nextWatcher w)) (newWatcher w)).

(** The outcome of a [Notify] call, [QDBusPendingReply<uint>]. *)
Inductive Reply :=
| ReplyError
| ReplyValue (id : IDType).

(** [DBusNotification::handleNotifyResult(QDBusPendingCallWatcher *watcher)] *)
Definition handleNotifyResult (this : Addr) (watcher : Watcher) (r : Reply)
    (w : World) : World :=
  match objects w !! this with
  | None => w
  | Some n =>
      if negb (bool_decide (m_watcher n = Some watcher)) then w
      else
        let n1 := set_m_watcher None n in
        match r with
        | ReplyError =>
            record (Emit this error) (store this (set_m_id initialId n1) w)
        | ReplyValue id =>
            let needsUpdate := m_id n =? pendingId2 in
            let w1 := record MutexLock (store this n1 w) in
            let w2 := record (MapInsert id this)
                        (setMap (<[id := this]> (pendingNotifications w1))
                           (store this (set_m_id id n1) w1)) in
            let w3 := record MutexUnlock w2 in
            let w4 := record (Emit this shown) w3 in
            if needsUpdate then snd (show this w4) else w4
        end
  end.

(** The reason passed to [closed] by [handleNotificationClosed]. *)
Definition closeReason (reason : Z) : NotificationCloseReason :=
  if (1 <=? reason) && (reason <=? 3) then castCloseReason reason else Undefined.

(** [DBusNotification::handleNotificationClosed(IDType id, uint reason)] *)
Definition handleNotificationClosed (id : IDType) (reason : Z) (w : World) : World :=
  let w1 := record MutexLock w in
  let i := find (pendingNotifications w1) id in
  match it_second (pendingNotifications w1) i with
  | Some notification =>
      let w2 := assignId notification initialId w1 in
      let w3 := record (Emit notification (closed (closeReason reason))) w2 in
      let w4 := erase i w3 in
      record MutexUnlock w4
  | None => record MutexUnlock w1
  end.

(** [DBusNotification::handleActionInvoked(IDType id, const QString &action)].
    The lock is a [QMutexLocker] of function scope, released on return. *)
Definition handleActionInvoked (id : IDType) (action : QString) (w : World) : World :=
  let w1 := record MutexLock w in
  let i := find (pendingNotifications w1) id in
  match it_second (pendingNotifications w1) i with
  | Some notification =>
      let w2 := record (Emit notification (actionInvoked action)) w1 in
      let w3 := record (Emit notification (closed ActionInvoked)) w2 in
      let w4 := assignId notification initialId w3 in
      let w5 := erase i w4 in
      let w6 := record (CloseNotification (it_first (pendingNotifications w5) i)) w5 in
      record MutexUnlock w6
  | None => record MutexUnlock w1
  end.

(** [DBusNotification::~DBusNotification()] *)
Definition destructor (this : Addr) (w : World) : World :=
  match objects w !! this with
  | None => w
  | Some n =>
      let w1 := record MutexLock w in
      let i := find (pendingNotifications w1) (m_id n) in
      let w2 := erase i w1 in
      let w3 := record MutexUnlock w2 in
      destroy this (snd (hide this w3))
  end.

(** The arguments [show] passes to [Notify]. *)
Definition notifyArgs (n : DBusNotification) (w : World) : NotifyArgs :=
  mkNotifyArgs
    (if isEmpty (m_applicationName n) then applicationName w else m_applicationName n)
    (m_id n) (m_icon n) (m_title n) (m_msg n) (m_actions n) (m_hints n) (m_timeout n).

(** The world in which [handleNotifyResult] emits [shown]. *)
Definition shownPoint (this : Addr) (n : DBusNotification) (id : IDType) (w : World) : World :=
  mkWorld (<[this := set_m_id id (set_m_watcher None n)]> (objects w))
    (<[id := this]> (pendingNotifications w))
    (interfaceValid w) (applicationName w) (nextWatcher w)
    (trace w ++ [MutexLock; MapInsert id this; MutexUnlock; Emit this shown]).

(** ** Handles and transport together

    The transport is outside the code: it holds the [Notify] requests that
    were sent and not yet answered.  A request is known by the handle it was
    sent for and its watcher. *)

(** The watcher of a [Notify] request sent for [this]. *)
Definition notifyOf (this : Addr) (e : Event) : option Watcher :=
  match e with
  | Notify x parent _ => if decide (parent = this) then Some x else None
  | _ => None
  end.

(** The requests sent for [this], oldest first. *)
Definition dispatched (this : Addr) (t : list Event) : list Watcher :=
  omap (notifyOf this) t.

Definition isNotify (e : Event) : bool :=
  match e with Notify _ _ _ => true | _ => false end.

(** The number of [Notify] requests in a trace. *)
Definition notifyCount (t : list Event) : nat := length (List.filter isNotify t).

(** The follow-up requests of a successful reply carrying [id] to the handle
    [n]: one when the state was [PendingCoalesced], the interface is valid
    and [id] is not a sentinel, none otherwise. *)
Definition followUps (n : DBusNotification) (id : IDType) (w : World) : nat :=
  if (m_id n =? pendingId2) && interfaceValid w
     && negb ((id =? pendingId) || (id =? pendingId2))
  then 1%nat else 0%nat.

(** The requests of [t] sent for [this] that [ans] does not list as answered. *)
Definition outstandingOf (ans : list (Addr * Watcher)) (this : Addr)
    (t : list Event) : list Watcher :=
  filter (fun x => (this, x) ∉ ans) (dispatched this t).

Record System := mkSystem {
  world : World;
  (** the requests whose reply has arrived *)
  answered : list (Addr * Watcher)
}.

Definition outstanding (s : System) (this : Addr) : list Watcher :=
  outstandingOf (answered s) this (trace (world s)).

(** What can happen to a system: the caller constructs a handle or calls
    [show()], [show(message)], [update(line)] or [hide()] on a live one; the
    reply to an outstanding request arrives; the daemon comes or goes. *)
Inductive Action :=
| DoConstruct (this : Addr) (title icon : QString) (timeout : Z)
| DoShow (this : Addr)
| DoShowMessage (this : Addr) (message : QString)
| DoUpdate (this : Addr) (line : QString)
| DoHide (this : Addr)
| ReplyArrives (this : Addr) (watcher : Watcher) (r : Reply)
| InterfaceBecomes (valid : bool).

Definition enabled (a : Action) (s : System) : Prop :=
  match a with
  | DoConstruct this _ _ _ =>
      objects (world s) !! this = None /\ dispatched this (trace (world s)) = []
  | DoShow this | DoShowMessage this _ | DoUpdate this _ | DoHide this =>
      is_Some (objects (world s) !! this)
  | ReplyArrives this watcher _ => watcher ∈ outstanding s this
  | InterfaceBecomes _ => True
  end.

Definition perform (a : Action) (s : System) : System :=
  match a with
  | DoConstruct this title icon timeout =>
      mkSystem (construct this title icon timeout (world s)) (answered s)
  | DoShow this => mkSystem (snd (show this (world s))) (answered s)
  | DoShowMessage this message =>
      mkSystem (snd (show_message this message (world s))) (answered s)
  | DoUpdate this line => mkSystem (snd (update this line (world s))) (answered s)
  | DoHide this => mkSystem (snd (hide this (world s))) (answered s)
  | ReplyArrives this watcher r =>
      mkSystem (handleNotifyResult this watcher r (world s))
        ((this, watcher) :: answered s)
  | InterfaceBecomes valid => mkSystem (setInterfaceValid valid (world s)) (answered s)
  end.

(** A world in which nothing has happened yet: every handle is as its
    constructor left it. *)
Definition fresh (w : World) : Prop :=
  trace w = [] /\
  forall this n, objects w !! this = Some n -> m_id n = initialId /\ m_watcher n = None.

Inductive reachable : System -> Prop :=
| reachable_fresh (w : World) : fresh w -> reachable (mkSystem w [])
| reachable_step (s : System) (a : Action) :
    reachable s -> enabled a s -> reachable (perform a s).

(** What holds of one handle in every reachable system: its request in
    flight, if any, is the one of [m_watcher], and a handle with a watcher
    is pending. *)
Definition handleInv (ans : list (Addr * Watcher)) (w : World) (this : Addr) : Prop :=
  match objects w !! this with
  | Some n =>
      outstandingOf ans this (trace w) =
        match m_watcher n with Some x => [x] | None => [] end /\
      (m_watcher n <> None -> isPending n = true)
  | None => dispatched this (trace w) = []
  end.

Definition Inv (ans : list (Addr * Watcher)) (w : World) : Prop :=
  (forall this, handleInv ans w this) /\
  (forall this x, x ∈ dispatched this (trace w) -> (x < nextWatcher w)%nat) /\
  (forall this x, (this, x) ∈ ans -> (x < nextWatcher w)%nat).

(** ** The lock discipline, read off a trace *)

Definition isOutboundCall (e : Event) : bool :=
  match e with
  | Notify _ _ _ | CloseNotification _ | GetCapabilities _ => true
  | _ => false
  end.

(** The outbound calls of a trace, in order. *)
Definition outboundCalls (t : list Event) : list Event :=
  List.filter isOutboundCall t.

(** Whether [pendingNotificationsMutex] is held after the events of [t],
    given whether it was held before. *)
Fixpoint heldAfter (held : bool) (t : list Event) : bool :=
  match t with
  | [] => held
  | MutexLock :: t' => heldAfter true t'
  | MutexUnlock :: t' => heldAfter false t'
  | _ :: t' => heldAfter held t'
  end.

(** The outbound calls of [t] that are made while the mutex is held. *)
Fixpoint callsUnderLock (held : bool) (t : list Event) : list Event :=
  match t with
  | [] => []
  | MutexLock :: t' => callsUnderLock true t'
  | MutexUnlock :: t' => callsUnderLock false t'
  | e :: t' =>
      if held && isOutboundCall e then e :: callsUnderLock held t'
      else callsUnderLock held t'
  end.

(** A trace keeps the discipline when no call is made under the mutex and
    the mutex is free at its end. *)
Definition disciplined (t : list Event) : Prop :=
  callsUnderLock false t = [] /\ heldAfter false t = false.

(** ** Worlds of the specification's scenarios *)

Definition emptyWorld : World :=
  mkWorld ∅ ∅ true (QStringLiteral "app"%string) 0%nat [].

(** A handle with title "Build", constructed at address 1. *)
Definition builtWorld : World :=
  construct 1%nat (QStringLiteral "Build"%string) [] (-1) emptyWorld.

(** After [show("Started")]: one request in flight, watcher 0. *)
Definition pendingWorld : World :=
  snd (show_message 1%nat (QStringLiteral "Started"%string) builtWorld).

(** After a second [show()] while the first is in flight. *)
Definition coalescedWorld : World := snd (show 1%nat pendingWorld).

(** Scenario A: the reply carried identifier 7. *)
Definition shownWorld : World :=
  handleNotifyResult 1%nat 0%nat (ReplyValue 7) pendingWorld.

(** Scenario A with the daemon gone afterwards. *)
Definition unreachableWorld : World := setInterfaceValid false shownWorld.

(** Two calls of [show()] in flight and the daemon gone. *)
Definition coalescedUnreachableWorld : World := setInterfaceValid false coalescedWorld.

(** The system after [show("Started")] and a second [show()]. *)
Definition coalescedSystem : System :=
  perform (DoShow 1%nat)
    (perform (DoShowMessage 1%nat (QStringLiteral "Started"%string))
       (mkSystem builtWorld [])).

(** Scenario A, then [show()], then [NotificationClosed(7, 2)] while that
    request is in flight, then [show()] once more. *)
Definition reshownWorld : World :=
  snd (show 1%nat (handleNotificationClosed 7 2 (snd (show 1%nat shownWorld)))).

(** ** Bitmaps *)

(** One 24-bit pixel, red 1, green 2, blue 3, and the byte that pads the line. *)
Definition rgb888Pixel : Qt.QImage :=
  Qt.mkQImage Qt.Format_RGB888 1 1 4 [x01; x02; x03; x00].

(** Two by two pixels with alpha; the second byte of each pixel is green. *)
Definition argb32Image : Qt.QImage :=
  Qt.mkQImage Qt.Format_ARGB32 2 2 8
    [x01; x02; x03; xff;  x11; x12; x13; x80;
     x21; x22; x23; x40;  x31; x32; x33; x00].

(** ** Further parts of the sources *)

(** The signals of a trace with their senders, in order. *)
Definition emitted (t : list Event) : list (Addr * Signal) :=
  omap (fun e => match e with Emit a s => Some (a, s) | _ => None end) t.

(** The operations of the class that a run can consist of, the handler of
    [ActionInvoked] apart. *)
Inductive Operation :=
| OpConstruct (this : Addr) (title icon : QString) (timeout : Z)
| OpShow (this : Addr)
| OpShowMessage (this : Addr) (message : QString)
| OpUpdate (this : Addr) (line : QString)
| OpHide (this : Addr)
| OpQueryCapabilities
| OpNotifyResult (this : Addr) (watcher : Watcher) (r : Reply)
| OpNotificationClosed (id : IDType) (reason : Z)
| OpDestroy (this : Addr)
| OpInterface (valid : bool).

Definition runOperation (o : Operation) (w : World) : World :=
  match o with
  | OpConstruct this title icon timeout => construct this title icon timeout w
  | OpShow this => snd (show this w)
  | OpShowMessage this message => snd (show_message this message w)
  | OpUpdate this line => snd (update this line w)
  | OpHide this => snd (hide this w)
  | OpQueryCapabilities => snd (queryCapabilities w)
  | OpNotifyResult this watcher r => handleNotifyResult this watcher r w
  | OpNotificationClosed id reason => handleNotificationClosed id reason w
  | OpDestroy this => destructor this w
  | OpInterface valid => setInterfaceValid valid w
  end.

Definition runOperations (ops : list Operation) (w : World) : World :=
  fold_left (fun w o => runOperation o w) ops w.

(** [operator<<(QDBusArgument &, const NotificationImage &)]: the structure
    written between [beginStructure] and [endStructure]. *)
Definition marshall (img : NotificationImage) : WireImage :=
  (width img, height img, rowstride img, hasAlpha img, bitsPerSample img,
   channels img, data img).

(** [operator>>(const QDBusArgument &, NotificationImage &)]: the seven
    members read back in the same order; [isValid] and the base class of
    [img] are not assigned. *)
Definition demarshall (a : WireImage) (img : NotificationImage) : NotificationImage :=
  match a with
  | (w, h, r, alpha, bps, ch, d) =>
      mkNotificationImage (argument img) w h r alpha ch bps d (isValid img)
  end.

(** [NotificationImage::toDBusArgument()]: the variant holding this image *)
Definition toDBusArgument (img : NotificationImage) : QVariant := VImage img.

(** [NotificationImage::fromDBusArgument(const QVariant &)]; [None] is the
    invalid [QVariant]. *)
Definition fromDBusArgument (v : option QVariant) : NotificationImage :=
  match v with
  | Some (VImage img) => img
  | _ => NotificationImage_default
  end.

(** Modelled from the spec: [hint(name, fallbackName)] is defined in
    dbusnotification.h, which is not among the sources; the specification
    has the image read under [image-data] and, for compatibility, under the
    legacy alias [image_data]. *)
Definition hint (name fallbackName : QString) (n : DBusNotification) : option QVariant :=
  match m_hints n !! name with
  | Some v => Some v
  | None => m_hints n !! fallbackName
  end.

(** [DBusNotification::image()] *)
Definition image (n : DBusNotification) : Qt.QImage :=
  toQImage (fromDBusArgument
              (hint (QStringLiteral "image-data"%string)
                    (QStringLiteral "image_data"%string) n)).

(** *** desktoputils.cpp *)

(** [QString::replace(QChar before, QChar after)] *)
Definition replaceChar (before after : N) (s : QString) : QString :=
  map (fun c => if N.eqb c before then after else c) s.

(** The path [openLocalFileOrDir] hands to [QUrl::setPath] in decoded mode.
    Under [Q_OS_WIN32] backslashes become slashes and an absolute path gets
    a slash in front; [isAbsolute] is [QFileInfo(path).isAbsolute()], asked
    of the path as given.  Elsewhere the path is passed as it is. *)
Definition urlPath (win32 : bool) (isAbsolute : QString -> bool) (path : QString) : QString :=
  if win32 then
    let tmp := replaceChar 92%N 47%N path in
    if isAbsolute path then QStringLiteral "/"%string ++ tmp else tmp
  else path.

(** Scenario A and a further [show()] whose reply has not arrived: the
    handle is pending and still registered under 7. *)
Definition reshowingWorld : World := snd (show 1%nat shownWorld).

(** A path test in the manner of Windows: a drive letter and a colon. *)
Definition hasDriveLetter (p : QString) : bool :=
  match p with _ :: 58%N :: _ => true | _ => false end.

(** ** Elementary facts *)

Lemma pendingId_value : pendingId = 4294967295.
Proof. reflexivity. Qed.

Lemma pendingId2_value : pendingId2 = 4294967294.
Proof. reflexivity. Qed.


Lemma isPending_set_pendingId (n : DBusNotification) :
  isPending (set_m_id pendingId n) = true.
Proof. reflexivity. Qed.

Lemma isPending_set_pendingId2 (n : DBusNotification) :
  isPending (set_m_id pendingId2 n) = true.
Proof. reflexivity. Qed.

Lemma trace_record (e : Event) (w : World) : trace (record e w) = trace w ++ [e].
Proof. reflexivity. Qed.

(** [show] in each of its three branches. *)
Lemma show_pending (this : Addr) (n : DBusNotification) (w : World) :
  objects w !! this = Some n -> isPending n = true ->
  show this w = (true, store this (set_m_id pendingId2 n) w).
Proof. intros Hn Hp. unfold show. now rewrite Hn, Hp. Qed.

Lemma show_unavailable_eq (this : Addr) (n : DBusNotification) (w : World) :
  objects w !! this = Some n -> isPending n = false -> interfaceValid w = false ->
  show this w = (false, record (Emit this error) w).
Proof. intros Hn Hp Hv. unfold show. now rewrite Hn, Hp, Hv. Qed.

Lemma show_dispatch (this : Addr) (n : DBusNotification) (w : World) :
  objects w !! this = Some n -> isPending n = false -> interfaceValid w = true ->
  show this w =
    (true,
     store this (set_m_id pendingId (set_m_watcher (Some (nextWatcher w)) n))
       (record (Notify (nextWatcher w) this (notifyArgs n w)) (newWatcher w))).
Proof. intros Hn Hp Hv. unfold show. now rewrite Hn, Hp, Hv. Qed.

(** [show] never touches the message. *)
Lemma show_keeps_msg (this : Addr) (n : DBusNotification) (w : World) :
  objects w !! this = Some n ->
  m_msg <$> (objects (snd (show this w)) !! this) = Some (m_msg n).
Proof.
  intros Hn. unfold show. rewrite Hn.
  destruct (isPending n); [|destruct (interfaceValid w)]; simpl;
    rewrite ?lookup_insert_eq, ?Hn; reflexivity.
Qed.

(** ** Properties of the lifecycle controller *)

(** C9. [hide()] sends [CloseNotification] with the handle's identifier
    and returns true exactly when the identifier is not zero; on an
    unassigned handle it returns false and leaves the world as it is; in
    both cases no object and no registry entry changes. *)
Theorem hide_sends_iff_nonzero (this : Addr) (n : DBusNotification) (w : World) :
  objects w !! this = Some n ->
  (fst (hide this w) = true <-> m_id n <> 0) /\
  trace (snd (hide this w)) =
    trace w ++ (if fst (hide this w) then [CloseNotification (Some (m_id n))] else []) /\
  (m_id n = 0 -> hide this w = (false, w)) /\
  objects (snd (hide this w)) = objects w /\
  pendingNotifications (snd (hide this w)) = pendingNotifications w.
Proof.
  intros Hn. unfold hide. rewrite Hn.
  destruct (Z.eqb_spec (m_id n) 0) as [E|E]; simpl.
  - rewrite app_nil_r. repeat split; try congruence; try discriminate.
  - repeat split; congruence.
Qed.

Lemma hide_sends_iff_nonzero_witness :
  (fst (hide 1%nat shownWorld) = true <-> 7 <> 0) /\
  trace (snd (hide 1%nat shownWorld)) =
    trace shownWorld ++
      (if fst (hide 1%nat shownWorld) then [CloseNotification (Some 7)] else []) /\
  (7 = 0 -> hide 1%nat shownWorld = (false, shownWorld)) /\
  objects (snd (hide 1%nat shownWorld)) = objects shownWorld /\
  pendingNotifications (snd (hide 1%nat shownWorld)) = pendingNotifications shownWorld.
Proof.
  exact (hide_sends_iff_nonzero 1%nat
           (mkDBusNotification 7 None [] (QStringLiteral "Build"%string)
              (QStringLiteral "Started"%string) [] (-1) [] ∅)
           shownWorld eq_refl).
Defined.

(** [update] replaces the message exactly when the identifier is 0 or the
    message is empty: a handle that is neither pending nor visible is an
    unassigned one.  (This also holds if [isVisible] is read as "the
    identifier is not 0".) *)
Lemma update_replaces_iff_unassigned (n : DBusNotification) :
  negb (isPending n) && negb (isVisible n) = (m_id n =? 0).
Proof.
  unfold isPending, isVisible, stateOf, initialId.
  destruct (Z.eqb_spec (m_id n) 0) as [E|E].
  - rewrite E. reflexivity.
  - destruct (Z.eqb_spec (m_id n) pendingId); [reflexivity|].
    destruct (Z.eqb_spec (m_id n) pendingId2); reflexivity.
Qed.

(** C7. [update(line)] replaces the message by [line] when the handle is
    neither pending nor visible or the message is empty; otherwise it puts
    "• " in front of a message that does not start with "•" and appends a
    newline, "• " and [line].  It then does what [show()] does on the handle
    with the new message, and the new message is in place whatever [show()]
    returns. *)
Theorem update_appends_bulleted_line (this : Addr) (n : DBusNotification)
    (line : QString) (w : World) :
  objects w !! this = Some n ->
  let msg :=
    if (negb (isPending n) && negb (isVisible n)) || isEmpty (m_msg n) then line
    else if startsWith (m_msg n) bullet
         then m_msg n ++ [10%N; 8226%N; 32%N] ++ line
         else [8226%N; 32%N] ++ m_msg n ++ [10%N; 8226%N; 32%N] ++ line in
  update this line w = show this (store this (set_m_msg msg n) w) /\
  m_msg <$> (objects (snd (update this line w)) !! this) = Some msg.
Proof.
  intros Hn msg.
  assert (Hmsg : updatedMessage n line = msg).
  { unfold updatedMessage, msg, append, insert0, bulletSpace, newlineBulletSpace.
    destruct ((negb (isPending n) && negb (isVisible n)) || isEmpty (m_msg n));
      [reflexivity|].
    destruct (startsWith (m_msg n) bullet); simpl.
    - now rewrite <- app_assoc.
    - now rewrite <- app_assoc. }
  assert (Hupd : update this line w = show this (store this (set_m_msg msg n) w)).
  { unfold update. now rewrite Hn, Hmsg. }
  split; [exact Hupd|].
  rewrite Hupd.
  rewrite (show_keeps_msg this (set_m_msg msg n)); [reflexivity|].
  simpl. apply lookup_insert_eq.
Qed.

(** Scenario B: "Started" becomes "• Started\n• Step 2". *)
Lemma update_appends_bulleted_line_witness :
  update 1%nat (QStringLiteral "Step 2"%string) shownWorld =
    show 1%nat
      (store 1%nat
         (set_m_msg
            ([8226%N; 32%N] ++ QStringLiteral "Started"%string ++ [10%N; 8226%N; 32%N]
               ++ QStringLiteral "Step 2"%string)
            (mkDBusNotification 7 None [] (QStringLiteral "Build"%string)
               (QStringLiteral "Started"%string) [] (-1) [] ∅))
         shownWorld) /\
  m_msg <$> (objects (snd (update 1%nat (QStringLiteral "Step 2"%string) shownWorld))
               !! 1%nat) =
    Some ([8226%N; 32%N] ++ QStringLiteral "Started"%string ++ [10%N; 8226%N; 32%N]
            ++ QStringLiteral "Step 2"%string).
Proof.
  exact (update_appends_bulleted_line 1%nat
           (mkDBusNotification 7 None [] (QStringLiteral "Build"%string)
              (QStringLiteral "Started"%string) [] (-1) [] ∅)
           (QStringLiteral "Step 2"%string) shownWorld eq_refl).
Defined.

(** C2, as the code has it. When [show()] is called on a handle that is not
    pending while the interface is not valid, it emits [error], returns
    false and changes nothing else: the identifier keeps its value, so an
    unassigned handle stays unassigned and an assigned one stays assigned. *)
Theorem show_unavailable_keeps_id (this : Addr) (n : DBusNotification) (w : World) :
  objects w !! this = Some n -> isPending n = false -> interfaceValid w = false ->
  fst (show this w) = false /\
  trace (snd (show this w)) = trace w ++ [Emit this error] /\
  objects (snd (show this w)) = objects w /\
  pendingNotifications (snd (show this w)) = pendingNotifications w /\
  m_id <$> (objects (snd (show this w)) !! this) = Some (m_id n).
Proof.
  intros Hn Hp Hv. rewrite (show_unavailable_eq this n w Hn Hp Hv). simpl.
  rewrite Hn. repeat split; reflexivity.
Qed.

Lemma show_unavailable_keeps_id_witness :
  fst (show 1%nat unreachableWorld) = false /\
  trace (snd (show 1%nat unreachableWorld)) =
    trace unreachableWorld ++ [Emit 1%nat error] /\
  objects (snd (show 1%nat unreachableWorld)) = objects unreachableWorld /\
  pendingNotifications (snd (show 1%nat unreachableWorld)) =
    pendingNotifications unreachableWorld /\
  m_id <$> (objects (snd (show 1%nat unreachableWorld)) !! 1%nat) = Some 7.
Proof.
  exact (show_unavailable_keeps_id 1%nat
           (mkDBusNotification 7 None [] (QStringLiteral "Build"%string)
              (QStringLiteral "Started"%string) [] (-1) [] ∅)
           unreachableWorld eq_refl eq_refl eq_refl).
Defined.

(** C2 as stated fails: the handle of scenario A, assigned identifier 7, is
    not pending; with the interface invalid [show()] emits [error] and
    returns false, yet the identifier is still 7 and the state is still
    [Assigned 7], not [Unassigned]. *)
Lemma show_unavailable_not_reset :
  (isPending <$> (objects unreachableWorld !! 1%nat)) = Some false /\
  interfaceValid unreachableWorld = false /\
  fst (show 1%nat unreachableWorld) = false /\
  (stateOf <$> (m_id <$> (objects (snd (show 1%nat unreachableWorld)) !! 1%nat)))
    = Some (Assigned 7).
Proof. vm_compute. repeat split. Qed.

(** Writing through a pointer to a live object. *)
Lemma alter_live {A} (f : A -> A) (a : Addr) (x : A) (m : gmap Addr A) :
  m !! a = Some x -> alter f a m = <[a := f x]> m.
Proof.
  intros Hx. apply map_eq. intros b.
  destruct (decide (a = b)) as [->|Hne].
  - rewrite lookup_alter_eq, lookup_insert_eq, Hx. reflexivity.
  - rewrite lookup_alter_ne, lookup_insert_ne by assumption. reflexivity.
Qed.

Lemma find_registered (m : gmap Z Addr) (id : IDType) (a : Addr) :
  m !! id = Some a -> find m id = Some id /\ it_second m (find m id) = Some a.
Proof. intros H. unfold find. rewrite H. simpl. auto. Qed.

Lemma find_unregistered (m : gmap Z Addr) (id : IDType) :
  m !! id = None -> it_second m (find m id) = None.
Proof. intros H. unfold find. now rewrite H. Qed.

Lemma closeReason_cases (reason : Z) :
  closeReason reason =
    match reason with
    | 1 => Expired
    | 2 => Dismissed
    | 3 => ClosedByRequest
    | _ => Undefined
    end.
Proof.
  unfold closeReason, castCloseReason.
  destruct (Z.leb_spec 1 reason), (Z.leb_spec reason 3); simpl; try reflexivity.
  - destruct reason as [|p|p]; try lia.
    destruct p as [[p|p|]|[p|p|]|]; try reflexivity; lia.
  - destruct reason as [|p|p]; try reflexivity.
    destruct p as [[p|p|]|[p|p|]|]; try reflexivity; lia.
  - lia.
Qed.

(** C6. On [NotificationClosed(id, reason)] with [id] registered for a live
    handle, that handle's identifier becomes 0, [closed] is emitted with
    [Expired], [Dismissed] or [ClosedByRequest] for the codes 1, 2, 3 and
    with [Undefined] for every other code, and [id] leaves the registry;
    with [id] not registered no object and no entry changes and nothing is
    emitted (the mutex is taken and released). *)
Theorem handleNotificationClosed_spec (id reason : Z) (w : World) :
  let w' := handleNotificationClosed id reason w in
  let r := match reason with
           | 1 => Expired
           | 2 => Dismissed
           | 3 => ClosedByRequest
           | _ => Undefined
           end in
  (forall a n,
     pendingNotifications w !! id = Some a -> objects w !! a = Some n ->
     objects w' = <[a := set_m_id initialId n]> (objects w) /\
     stateOf (m_id (set_m_id initialId n)) = Unassigned /\
     pendingNotifications w' = delete id (pendingNotifications w) /\
     trace w' = trace w ++ [MutexLock; Emit a (closed r); MapErase id; MutexUnlock]) /\
  (pendingNotifications w !! id = None ->
     objects w' = objects w /\
     pendingNotifications w' = pendingNotifications w /\
     trace w' = trace w ++ [MutexLock; MutexUnlock]).
Proof.
  intros w' r. subst w' r. rewrite <- closeReason_cases. split.
  - intros a n Hreg Hlive. unfold handleNotificationClosed. simpl.
    destruct (find_registered _ _ _ Hreg) as [Hf Hs]. rewrite Hs, Hf. simpl.
    rewrite (alter_live _ _ _ _ Hlive).
    repeat split. now rewrite <- !app_assoc.
  - intros Hreg. unfold handleNotificationClosed. simpl.
    rewrite (find_unregistered _ _ Hreg). simpl.
    repeat split. now rewrite <- !app_assoc.
Qed.

(** Scenario D: [NotificationClosed(7, 2)] while the handle is [Assigned 7]. *)
Lemma handleNotificationClosed_spec_witness :
  objects (handleNotificationClosed 7 2 shownWorld) =
    <[1%nat := set_m_id initialId
                 (mkDBusNotification 7 None [] (QStringLiteral "Build"%string)
                    (QStringLiteral "Started"%string) [] (-1) [] ∅)]>
      (objects shownWorld) /\
  stateOf 0 = Unassigned /\
  pendingNotifications (handleNotificationClosed 7 2 shownWorld) =
    delete 7 (pendingNotifications shownWorld) /\
  trace (handleNotificationClosed 7 2 shownWorld) =
    trace shownWorld ++
      [MutexLock; Emit 1%nat (closed Dismissed); MapErase 7; MutexUnlock].
Proof.
  exact (proj1 (handleNotificationClosed_spec 7 2 shownWorld) 1%nat
           (mkDBusNotification 7 None [] (QStringLiteral "Build"%string)
              (QStringLiteral "Started"%string) [] (-1) [] ∅)
           eq_refl eq_refl).
Defined.

(** ** The action handler *)

(** What [handleActionInvoked] does for a registered identifier.  The
    argument of its [CloseNotification] call is [i->first] evaluated after
    [erase(i)]. *)
Lemma handleActionInvoked_registered (id : IDType) (action : QString) (a : Addr)
    (n : DBusNotification) (w : World) :
  pendingNotifications w !! id = Some a -> objects w !! a = Some n ->
  handleActionInvoked id action w =
    mkWorld (<[a := set_m_id initialId n]> (objects w))
      (delete id (pendingNotifications w))
      (interfaceValid w) (applicationName w) (nextWatcher w)
      (trace w ++ [MutexLock; Emit a (actionInvoked action);
                   Emit a (closed ActionInvoked); MapErase id;
                   CloseNotification None; MutexUnlock]).
Proof.
  intros Hreg Hlive. unfold handleActionInvoked. simpl.
  destruct (find_registered _ _ _ Hreg) as [Hf Hs]. rewrite Hs, Hf. simpl.
  rewrite lookup_delete_eq. unfold record, setMap, assignId. simpl.
  rewrite (alter_live _ _ _ _ Hlive), <- !app_assoc.
  reflexivity.
Qed.

Lemma handleActionInvoked_unregistered (id : IDType) (action : QString) (w : World) :
  pendingNotifications w !! id = None ->
  handleActionInvoked id action w = record MutexUnlock (record MutexLock w).
Proof.
  intros Hreg. unfold handleActionInvoked. simpl.
  now rewrite (find_unregistered _ _ Hreg).
Qed.

(** C3 at scenario E, [ActionInvoked(7, "retry")] while the handle at
    address 1 is [Assigned 7].  The handle emits [actionInvoked("retry")]
    and then [closed(ActionInvoked)], its identifier becomes 0 and 7 leaves
    the registry; the [CloseNotification] call that follows takes its
    argument from the erased map node, so no call carrying 7 is guaranteed. *)
Theorem handleActionInvoked_reads_erased_node :
  pendingNotifications shownWorld !! 7 = Some 1%nat /\
  trace (handleActionInvoked 7 (QStringLiteral "retry"%string) shownWorld) =
    trace shownWorld ++
      [MutexLock; Emit 1%nat (actionInvoked (QStringLiteral "retry"%string));
       Emit 1%nat (closed ActionInvoked); MapErase 7;
       CloseNotification None; MutexUnlock] /\
  m_id <$> (objects (handleActionInvoked 7 (QStringLiteral "retry"%string) shownWorld)
              !! 1%nat) = Some 0 /\
  pendingNotifications (handleActionInvoked 7 (QStringLiteral "retry"%string) shownWorld)
    !! 7 = None /\
  outboundCalls
    (trace (handleActionInvoked 7 (QStringLiteral "retry"%string) shownWorld)) =
    outboundCalls (trace shownWorld) ++ [CloseNotification None].
Proof. vm_compute. repeat split. Qed.

(** ** The lock discipline *)

Lemma heldAfter_app (h : bool) (t1 t2 : list Event) :
  heldAfter h (t1 ++ t2) = heldAfter (heldAfter h t1) t2.
Proof.
  revert h. induction t1 as [|e t1 IH]; intros h; [reflexivity|].
  destruct e; simpl; apply IH.
Qed.

Lemma callsUnderLock_app (h : bool) (t1 t2 : list Event) :
  callsUnderLock h (t1 ++ t2) =
    callsUnderLock h t1 ++ callsUnderLock (heldAfter h t1) t2.
Proof.
  revert h. induction t1 as [|e t1 IH]; intros h; [reflexivity|].
  destruct e; simpl; rewrite ?IH; try reflexivity;
    destruct h; simpl; rewrite ?IH; reflexivity.
Qed.

Lemma disciplined_app (t1 t2 : list Event) :
  disciplined t1 -> disciplined t2 -> disciplined (t1 ++ t2).
Proof.
  intros [H1 H1'] [H2 H2']. split.
  - now rewrite callsUnderLock_app, H1, H1', H2.
  - now rewrite heldAfter_app, H1', H2'.
Qed.

Lemma show_disciplined (this : Addr) (w : World) :
  disciplined (trace w) -> disciplined (trace (snd (show this w))).
Proof.
  intros Hd. unfold show.
  destruct (objects w !! this) as [n|]; [|exact Hd].
  destruct (isPending n); [exact Hd|].
  destruct (interfaceValid w); simpl; apply disciplined_app; try exact Hd;
    split; reflexivity.
Qed.

Lemma hide_disciplined (this : Addr) (w : World) :
  disciplined (trace w) -> disciplined (trace (snd (hide this w))).
Proof.
  intros Hd. unfold hide.
  destruct (objects w !! this) as [n|]; [|exact Hd].
  destruct (m_id n =? 0); simpl; [exact Hd|].
  apply disciplined_app; [exact Hd|split; reflexivity].
Qed.

(** The sibling paths release the mutex before they call out: the reply
    handler, the handler of [NotificationClosed] and the destructor. *)
Lemma handleNotifyResult_disciplined (this : Addr) (watcher : Watcher) (r : Reply)
    (w : World) :
  disciplined (trace w) -> disciplined (trace (handleNotifyResult this watcher r w)).
Proof.
  intros Hd. unfold handleNotifyResult.
  destruct (objects w !! this) as [n|]; [|exact Hd].
  destruct (bool_decide (m_watcher n = Some watcher)); [|exact Hd]. simpl.
  destruct r as [|id].
  - simpl. apply disciplined_app; [exact Hd|split; reflexivity].
  - destruct (m_id n =? pendingId2); [apply show_disciplined|]; simpl;
      rewrite <- !app_assoc; (apply disciplined_app; [exact Hd|split; reflexivity]).
Qed.

Lemma handleNotificationClosed_disciplined (id reason : Z) (w : World) :
  disciplined (trace w) -> disciplined (trace (handleNotificationClosed id reason w)).
Proof.
  intros Hd. unfold handleNotificationClosed. simpl.
  unfold find. destruct (pendingNotifications w !! id) as [a|] eqn:E; simpl.
  - rewrite E. simpl. rewrite <- !app_assoc.
    apply disciplined_app; [exact Hd|split; reflexivity].
  - rewrite <- !app_assoc. apply disciplined_app; [exact Hd|split; reflexivity].
Qed.

Lemma destructor_disciplined (this : Addr) (w : World) :
  disciplined (trace w) -> disciplined (trace (destructor this w)).
Proof.
  intros Hd. unfold destructor.
  destruct (objects w !! this) as [n|]; [|exact Hd].
  change (trace (destroy this ?x)) with (trace x).
  apply hide_disciplined.
  unfold find. simpl.
  destruct (pendingNotifications w !! m_id n); simpl; rewrite <- !app_assoc;
    (apply disciplined_app; [exact Hd|split; reflexivity]).
Qed.

Lemma update_disciplined (this : Addr) (line : QString) (w : World) :
  disciplined (trace w) -> disciplined (trace (snd (update this line w))).
Proof.
  intros Hd. unfold update.
  destruct (objects w !! this) as [n|]; [|exact Hd].
  now apply show_disciplined.
Qed.

Lemma show_message_disciplined (this : Addr) (message : QString) (w : World) :
  disciplined (trace w) -> disciplined (trace (snd (show_message this message w))).
Proof.
  intros Hd. unfold show_message.
  destruct (objects w !! this) as [n|]; [|exact Hd].
  now apply show_disciplined.
Qed.

Lemma queryCapabilities_disciplined (w : World) :
  disciplined (trace w) -> disciplined (trace (snd (queryCapabilities w))).
Proof.
  intros Hd. unfold queryCapabilities.
  destruct (interfaceValid w); simpl; [|exact Hd].
  apply disciplined_app; [exact Hd|split; reflexivity].
Qed.

(** [handleActionInvoked] on an identifier that is not registered keeps the
    discipline as well. *)
Lemma handleActionInvoked_unregistered_disciplined (id : IDType) (action : QString)
    (w : World) :
  pendingNotifications w !! id = None ->
  disciplined (trace w) -> disciplined (trace (handleActionInvoked id action w)).
Proof.
  intros Hreg Hd. rewrite (handleActionInvoked_unregistered id action w Hreg).
  simpl. rewrite <- app_assoc. apply disciplined_app; [exact Hd|split; reflexivity].
Qed.

(** On a registered identifier the call is made with the mutex held,
    whatever the identifier and the handle. *)
Lemma handleActionInvoked_registered_under_lock (id : IDType) (action : QString)
    (a : Addr) (n : DBusNotification) (w : World) :
  pendingNotifications w !! id = Some a -> objects w !! a = Some n ->
  disciplined (trace w) ->
  callsUnderLock false (trace (handleActionInvoked id action w)) =
    [CloseNotification None].
Proof.
  intros Hreg Hlive [Hc Hh].
  rewrite (handleActionInvoked_registered id action a n w Hreg Hlive).
  cbn [trace]. rewrite callsUnderLock_app, Hc, Hh. reflexivity.
Qed.

(** C4 at scenario E.  The trace up to the signal keeps the discipline; the
    run of [handleActionInvoked] on a registered identifier makes its
    [CloseNotification] call between taking the mutex and releasing it. *)
Theorem handleActionInvoked_calls_under_lock :
  disciplined (trace shownWorld) /\
  callsUnderLock false
    (trace (handleActionInvoked 7 (QStringLiteral "retry"%string) shownWorld)) =
    [CloseNotification None].
Proof. split; [split; reflexivity|reflexivity]. Qed.

(** ** Sentinels and daemon-assigned identifiers in one field *)


Lemma isPending_assigned (n : DBusNotification) :
  0 <= m_id n < 2 ^ 32 - 2 -> isPending n = false.
Proof.
  intros H. unfold isPending.
  rewrite (proj2 (Z.eqb_neq (m_id n) pendingId)) by (rewrite pendingId_value; lia).
  rewrite (proj2 (Z.eqb_neq (m_id n) pendingId2)) by (rewrite pendingId2_value; lia).
  reflexivity.
Qed.

Lemma handleNotifyResult_value (this : Addr) (watcher : Watcher)
    (n : DBusNotification) (id : IDType) (w : World) :
  objects w !! this = Some n -> m_watcher n = Some watcher ->
  handleNotifyResult this watcher (ReplyValue id) w =
    if m_id n =? pendingId2 then snd (show this (shownPoint this n id w))
    else shownPoint this n id w.
Proof.
  intros Hn Hw. unfold handleNotifyResult. rewrite Hn.
  rewrite bool_decide_eq_true_2 by assumption. simpl.
  unfold shownPoint, record, setMap, store. simpl.
  rewrite insert_insert_eq, <- !app_assoc. reflexivity.
Qed.

Lemma shownPoint_lookup (this : Addr) (n : DBusNotification) (id : IDType) (w : World) :
  objects (shownPoint this n id w) !! this = Some (set_m_id id (set_m_watcher None n)).
Proof. apply lookup_insert_eq. Qed.

Lemma handleNotifyResult_final (this : Addr) (watcher : Watcher)
    (n : DBusNotification) (id : IDType) (w : World) :
  objects w !! this = Some n -> m_watcher n = Some watcher ->
  objects (handleNotifyResult this watcher (ReplyValue id) w) !! this =
    Some (let n1 := set_m_id id (set_m_watcher None n) in
          if m_id n =? pendingId2 then
            if isPending n1 then set_m_id pendingId2 n1
            else if interfaceValid w
                 then set_m_id pendingId (set_m_watcher (Some (nextWatcher w)) n1)
                 else n1
          else n1).
Proof.
  intros Hn Hw. rewrite (handleNotifyResult_value this watcher n id w Hn Hw).
  destruct (m_id n =? pendingId2); [|apply shownPoint_lookup].
  unfold show. rewrite shownPoint_lookup. cbv zeta.
  destruct (isPending _); simpl; [apply lookup_insert_eq|].
  destruct (interfaceValid w); simpl; apply lookup_insert_eq.
Qed.








(** ** At most one request in flight *)

Lemma dispatched_app (this : Addr) (t1 t2 : list Event) :
  dispatched this (t1 ++ t2) = dispatched this t1 ++ dispatched this t2.
Proof. apply omap_app. Qed.

Lemma outstandingOf_app (ans : list (Addr * Watcher)) (this : Addr) (t1 t2 : list Event) :
  outstandingOf ans this (t1 ++ t2) =
    outstandingOf ans this t1 ++ outstandingOf ans this t2.
Proof. unfold outstandingOf. rewrite dispatched_app. apply filter_app. Qed.

Lemma outstandingOf_silent (ans : list (Addr * Watcher)) (this : Addr) (t : list Event) :
  dispatched this t = [] -> outstandingOf ans this t = [].
Proof. intros H. unfold outstandingOf. now rewrite H. Qed.

Lemma outstandingOf_dispatched (ans : list (Addr * Watcher)) (this : Addr)
    (t : list Event) (x : Watcher) :
  x ∈ outstandingOf ans this t -> x ∈ dispatched this t.
Proof. unfold outstandingOf. intros H. now apply list_elem_of_filter in H as [_ H]. Qed.

(** Answering a request of another handle is not seen. *)
Lemma outstandingOf_answer_other (ans : list (Addr * Watcher)) (this b : Addr)
    (x : Watcher) (t : list Event) :
  b <> this -> outstandingOf ((this, x) :: ans) b t = outstandingOf ans b t.
Proof.
  intros Hne. unfold outstandingOf. apply list_filter_iff. intros y.
  rewrite not_elem_of_cons. split; [tauto|]. intros H. split; [congruence|exact H].
Qed.

(** Answering the only outstanding request leaves none. *)
Lemma outstandingOf_answer (ans : list (Addr * Watcher)) (this : Addr)
    (x : Watcher) (t : list Event) :
  outstandingOf ans this t = [x] -> outstandingOf ((this, x) :: ans) this t = [].
Proof.
  unfold outstandingOf. intros H.
  rewrite (list_filter_iff _ (fun y => y <> x /\ (this, y) ∉ ans)).
  - rewrite <- list_filter_filter, H. rewrite filter_cons_False; [reflexivity|tauto].
  - intros y. rewrite not_elem_of_cons. split.
    + intros [H1 H2]. split; [congruence|exact H2].
    + intros [H1 H2]. split; [congruence|exact H2].
Qed.

(** Storing a new value of the handle [this] and appending events that send
    nothing for other handles. *)
Lemma Inv_step (ans : list (Addr * Watcher)) (w W : World) (this : Addr)
    (n' : DBusNotification) (delta : list Event) :
  Inv ans w ->
  objects W = <[this := n']> (objects w) ->
  trace W = trace w ++ delta ->
  (nextWatcher w <= nextWatcher W)%nat ->
  (forall b, b <> this -> dispatched b delta = []) ->
  (forall x, x ∈ dispatched this delta -> (x < nextWatcher W)%nat) ->
  outstandingOf ans this (trace w ++ delta) =
    match m_watcher n' with Some x => [x] | None => [] end ->
  (m_watcher n' <> None -> isPending n' = true) ->
  Inv ans W.
Proof.
  intros (Hh & Hd & Ha) Hobj Htr Hnext Hother Hnew Hout Hpend.
  split; [|split].
  - intros b. unfold handleInv. rewrite Hobj, Htr.
    destruct (decide (this = b)) as [<-|Hne].
    + rewrite lookup_insert_eq. split; assumption.
    + rewrite lookup_insert_ne by assumption.
      specialize (Hh b). unfold handleInv in Hh.
      rewrite outstandingOf_app, dispatched_app.
      rewrite (outstandingOf_silent ans b delta), (Hother b), !app_nil_r by auto.
      exact Hh.
  - intros b x. rewrite Htr, dispatched_app, elem_of_app. intros [Hx|Hx].
    + specialize (Hd b x Hx). lia.
    + destruct (decide (b = this)) as [->|Hne]; [auto|].
      rewrite (Hother b Hne) in Hx. now apply elem_of_nil in Hx.
  - intros b x Hx. specialize (Ha b x Hx). lia.
Qed.

(** Appending events that send nothing. *)
Lemma Inv_events (ans : list (Addr * Watcher)) (w W : World) (delta : list Event) :
  Inv ans w ->
  objects W = objects w ->
  trace W = trace w ++ delta ->
  nextWatcher W = nextWatcher w ->
  (forall b, dispatched b delta = []) ->
  Inv ans W.
Proof.
  intros (Hh & Hd & Ha) Hobj Htr Hnext Hsilent.
  split; [|split].
  - intros b. unfold handleInv. rewrite Hobj, Htr.
    rewrite outstandingOf_app, dispatched_app.
    rewrite (outstandingOf_silent ans b delta), (Hsilent b), !app_nil_r by auto.
    apply Hh.
  - intros b x. rewrite Htr, dispatched_app, (Hsilent b), app_nil_r, Hnext. apply Hd.
  - intros b x. rewrite Hnext. apply Ha.
Qed.

(** The reply to the request of [m_watcher] arrives: the handler clears the
    watcher and sends nothing before [shown] or [error]. *)
Lemma Inv_reply (ans : list (Addr * Watcher)) (w W : World) (this : Addr)
    (n n' : DBusNotification) (watcher : Watcher) (delta : list Event) :
  Inv ans w ->
  objects w !! this = Some n -> m_watcher n = Some watcher ->
  objects W = <[this := n']> (objects w) -> m_watcher n' = None ->
  trace W = trace w ++ delta ->
  (forall b, dispatched b delta = []) ->
  nextWatcher W = nextWatcher w ->
  Inv ((this, watcher) :: ans) W.
Proof.
  intros (Hh & Hd & Ha) Hn Hw Hobj Hw' Htr Hsilent Hnext.
  assert (Hout : outstandingOf ans this (trace w) = [watcher]).
  { specialize (Hh this). unfold handleInv in Hh. rewrite Hn, Hw in Hh. apply Hh. }
  split; [|split].
  - intros b. unfold handleInv. rewrite Hobj, Htr.
    rewrite outstandingOf_app, dispatched_app.
    rewrite (outstandingOf_silent _ b delta), (Hsilent b), !app_nil_r by auto.
    destruct (decide (this = b)) as [<-|Hne].
    + rewrite lookup_insert_eq, Hw'. split; [|congruence].
      now apply outstandingOf_answer.
    + rewrite lookup_insert_ne by assumption.
      rewrite outstandingOf_answer_other by congruence. apply Hh.
  - intros b x. rewrite Htr, dispatched_app, (Hsilent b), app_nil_r, Hnext. apply Hd.
  - intros b x. rewrite Hnext, elem_of_cons. intros [Heq|Hx]; [|now apply (Ha b)].
    injection Heq as -> ->. apply (Hd this).
    apply (outstandingOf_dispatched ans). rewrite Hout. apply list_elem_of_here.
Qed.

Lemma Inv_show (ans : list (Addr * Watcher)) (this : Addr) (w : World) :
  Inv ans w -> Inv ans (snd (show this w)).
Proof.
  intros HI. unfold show.
  destruct (objects w !! this) as [n|] eqn:Hn; [|exact HI].
  pose proof (proj1 HI this) as Hh. unfold handleInv in Hh. rewrite Hn in Hh.
  destruct Hh as [Hout Hpend].
  destruct (isPending n) eqn:Hp; simpl.
  - (* absorbed *)
    apply (Inv_step ans w _ this (set_m_id pendingId2 n) []); simpl;
      rewrite ?app_nil_r; auto.
    intros x Hx. now apply elem_of_nil in Hx.
  - assert (Hnone : m_watcher n = None).
    { destruct (m_watcher n); [|reflexivity].
      discriminate Hpend. discriminate. }
    rewrite Hnone in Hout.
    destruct (interfaceValid w); simpl.
    + (* a request is sent *)
      eapply (Inv_step ans w _ this _ [Notify (nextWatcher w) this _]); simpl;
        try reflexivity; auto.
      * intros b Hne. unfold dispatched. simpl. now rewrite decide_False by congruence.
      * intros x. unfold dispatched. simpl. rewrite decide_True by reflexivity.
        intros ->%list_elem_of_singleton. lia.
      * rewrite outstandingOf_app, Hout. unfold outstandingOf, dispatched. simpl.
        rewrite decide_True by reflexivity.
        rewrite filter_cons_True; [reflexivity|].
        intros Hin. apply (proj2 (proj2 HI)) in Hin. lia.
    + apply (Inv_events ans w _ [Emit this error]); auto.
Qed.

Lemma Inv_store_msg (ans : list (Addr * Watcher)) (this : Addr)
    (n : DBusNotification) (msg : QString) (w : World) :
  Inv ans w -> objects w !! this = Some n ->
  Inv ans (store this (set_m_msg msg n) w).
Proof.
  intros HI Hn.
  pose proof (proj1 HI this) as Hh. unfold handleInv in Hh. rewrite Hn in Hh.
  apply (Inv_step ans w _ this (set_m_msg msg n) []); simpl;
    rewrite ?app_nil_r; auto; try apply Hh.
  intros x Hx. now apply elem_of_nil in Hx.
Qed.

Lemma Inv_handleNotifyResult (ans : list (Addr * Watcher)) (this : Addr)
    (watcher : Watcher) (r : Reply) (w : World) :
  Inv ans w -> watcher ∈ outstandingOf ans this (trace w) ->
  Inv ((this, watcher) :: ans) (handleNotifyResult this watcher r w).
Proof.
  intros HI Hin.
  pose proof (proj1 HI this) as Hh. unfold handleInv in Hh.
  destruct (objects w !! this) as [n|] eqn:Hn.
  - destruct Hh as [Hout _]. rewrite Hout in Hin.
    destruct (m_watcher n) as [x|] eqn:Hw; [|now apply elem_of_nil in Hin].
    apply list_elem_of_singleton in Hin. subst x.
    destruct r as [|id].
    + unfold handleNotifyResult. rewrite Hn, Hw, bool_decide_eq_true_2 by reflexivity.
      apply (Inv_reply ans w _ this n (set_m_id initialId (set_m_watcher None n))
               watcher [Emit this error]); auto.
    + rewrite (handleNotifyResult_value this watcher n id w Hn Hw).
      assert (H1 : Inv ((this, watcher) :: ans) (shownPoint this n id w)).
      { apply (Inv_reply ans w _ this n (set_m_id id (set_m_watcher None n)) watcher
                 [MutexLock; MapInsert id this; MutexUnlock; Emit this shown]); auto. }
      destruct (m_id n =? pendingId2); [now apply Inv_show|exact H1].
  - apply outstandingOf_dispatched in Hin. rewrite Hh in Hin.
    now apply elem_of_nil in Hin.
Qed.

Lemma Inv_perform (s : System) (a : Action) :
  Inv (answered s) (world s) -> enabled a s ->
  Inv (answered (perform a s)) (world (perform a s)).
Proof.
  intros HI Hen. destruct a; simpl in *.
  - destruct Hen as [Hnone Hsilent].
    apply (Inv_step _ (world s) _ this
             (mkDBusNotification initialId None [] title [] icon timeout [] ∅) []);
      simpl; rewrite ?app_nil_r; auto using outstandingOf_silent.
    intros x Hx. now apply elem_of_nil in Hx.
  - now apply Inv_show.
  - unfold show_message. destruct Hen as [n Hn]. rewrite Hn.
    apply Inv_show. now apply Inv_store_msg.
  - unfold update. destruct Hen as [n Hn]. rewrite Hn.
    apply Inv_show. now apply Inv_store_msg.
  - unfold hide. destruct Hen as [n Hn]. rewrite Hn.
    destruct (m_id n =? 0); simpl; [exact HI|].
    apply (Inv_events _ (world s) _ [CloseNotification (Some (m_id n))]); auto.
  - now apply Inv_handleNotifyResult.
  - apply (Inv_events _ (world s) _ []); simpl; rewrite ?app_nil_r; auto.
Qed.

Lemma Inv_fresh (w : World) : fresh w -> Inv [] w.
Proof.
  intros [Ht Hf]. split; [|split].
  - intros this. unfold handleInv. rewrite Ht.
    destruct (objects w !! this) as [n|] eqn:Hn; [|reflexivity].
    destruct (Hf this n Hn) as [_ ->]. split; [reflexivity|congruence].
  - intros this x. rewrite Ht. intros Hx. now apply elem_of_nil in Hx.
  - intros this x Hx. now apply elem_of_nil in Hx.
Qed.

Lemma Inv_reachable (s : System) : reachable s -> Inv (answered s) (world s).
Proof.
  induction 1 as [w Hf|s a _ IH Hen].
  - now apply Inv_fresh.
  - now apply Inv_perform.
Qed.

Lemma outstanding_bound (s : System) (this : Addr) :
  Inv (answered s) (world s) -> (length (outstanding s this) <= 1)%nat.
Proof.
  intros HI. pose proof (proj1 HI this) as Hh. unfold handleInv in Hh.
  unfold outstanding.
  destruct (objects (world s) !! this) as [n|].
  - destruct Hh as [-> _]. destruct (m_watcher n); simpl; lia.
  - rewrite outstandingOf_silent by assumption. simpl. lia.
Qed.

Lemma notifyCount_app (t1 t2 : list Event) :
  notifyCount (t1 ++ t2) = (notifyCount t1 + notifyCount t2)%nat.
Proof. unfold notifyCount. now rewrite List.filter_app, length_app. Qed.

(** The requests a successful reply makes the handler send. *)
Lemma notifyCount_handleNotifyResult (this : Addr) (watcher : Watcher)
    (n : DBusNotification) (id : IDType) (w : World) :
  objects w !! this = Some n -> m_watcher n = Some watcher ->
  notifyCount (trace (handleNotifyResult this watcher (ReplyValue id) w)) =
    (notifyCount (trace w) + followUps n id w)%nat.
Proof.
  intros Hn Hw. rewrite (handleNotifyResult_value this watcher n id w Hn Hw).
  unfold followUps.
  assert (Hbase : notifyCount (trace (shownPoint this n id w)) = notifyCount (trace w)).
  { unfold shownPoint. cbn [trace]. rewrite notifyCount_app.
    change (notifyCount [MutexLock; MapInsert id this; MutexUnlock; Emit this shown])
      with 0%nat.
    lia. }
  destruct (m_id n =? pendingId2); cbn [andb]; [|rewrite Hbase; lia].
  unfold show. rewrite shownPoint_lookup.
  change (isPending (set_m_id id (set_m_watcher None n)))
    with ((id =? pendingId) || (id =? pendingId2)).
  destruct ((id =? pendingId) || (id =? pendingId2)); cbn [negb snd].
  - rewrite andb_false_r.
    change (trace (store ?a ?b ?c)) with (trace c). lia.
  - rewrite andb_true_r.
    change (interfaceValid (shownPoint this n id w)) with (interfaceValid w).
    destruct (interfaceValid w); cbn [negb snd].
    + change (trace (store ?a ?b ?c)) with (trace c).
      rewrite trace_record, notifyCount_app.
      change (trace (newWatcher ?c)) with (trace c).
      change (notifyCount [Notify ?a ?b ?c]) with 1%nat. lia.
    + rewrite trace_record, notifyCount_app.
      change (notifyCount [Emit ?a ?b]) with 0%nat. lia.
Qed.

Lemma builtWorld_fresh : fresh builtWorld.
Proof.
  split; [reflexivity|]. intros this n H.
  unfold builtWorld, construct, store in H. simpl in H.
  apply lookup_insert_Some in H as [[_ <-]|[_ H]]; [split; reflexivity|].
  rewrite lookup_empty in H. discriminate H.
Qed.

Lemma coalescedSystem_reachable : reachable coalescedSystem.
Proof.
  unfold coalescedSystem.
  apply reachable_step; [apply reachable_step; [apply reachable_fresh|]|].
  - apply builtWorld_fresh.
  - eexists. reflexivity.
  - eexists. reflexivity.
Qed.

(** The bound is one of [show()], [update()], [hide()] and replies.  A
    closure signal for the identifier of a handle that is being shown again
    resets its identifier while the request is in flight; the next [show()]
    then sends a second request.  Below, the request of watcher 0 has been
    answered and those of watchers 1 and 2 are both in flight. *)
Lemma closure_signal_allows_second_request :
  outstandingOf [(1%nat, 0%nat)] 1%nat (trace reshownWorld) = [1%nat; 2%nat].
Proof. vm_compute. reflexivity. Qed.

(** C1, as the code has it.  In every system reached by constructing
    handles, calling [show()], [show(message)], [update(line)] and [hide()],
    replies arriving and the daemon coming and going, every handle has at
    most one [Notify] request in flight.  [show()] on a pending handle sends
    nothing, sets the state to [PendingCoalesced] and returns true.  A
    successful reply makes the handler send exactly one follow-up request
    when the state was [PendingCoalesced], the interface is valid and the
    identifier received is not one of the two sentinels, and none
    otherwise. *)
Theorem at_most_one_request_in_flight :
  (forall s this, reachable s -> (length (outstanding s this) <= 1)%nat) /\
  (forall this n w,
     objects w !! this = Some n -> isPending n = true ->
     show this w = (true, store this (set_m_id pendingId2 n) w) /\
     trace (snd (show this w)) = trace w /\
     stateOf (m_id (set_m_id pendingId2 n)) = PendingCoalesced) /\
  (forall this watcher n id w,
     objects w !! this = Some n -> m_watcher n = Some watcher ->
     notifyCount (trace (handleNotifyResult this watcher (ReplyValue id) w)) =
       (notifyCount (trace w) + followUps n id w)%nat).
Proof.
  split; [|split].
  - intros s this Hr. apply outstanding_bound. now apply Inv_reachable.
  - intros this n w Hn Hp. rewrite (show_pending this n w Hn Hp).
    repeat split.
  - apply notifyCount_handleNotifyResult.
Qed.

(** Scenario C: a second [show()] while the first request is in flight, and
    then the reply with identifier 7. *)
Lemma at_most_one_request_in_flight_witness :
  (length (outstanding coalescedSystem 1%nat) <= 1)%nat /\
  show 1%nat pendingWorld =
    (true,
     store 1%nat
       (set_m_id pendingId2
          (mkDBusNotification pendingId (Some 0%nat) []
             (QStringLiteral "Build"%string)
             (QStringLiteral "Started"%string) [] (-1) [] ∅))
       pendingWorld) /\
  notifyCount (trace (handleNotifyResult 1%nat 0%nat (ReplyValue 7) coalescedWorld)) =
    (notifyCount (trace coalescedWorld) + 1)%nat.
Proof.
  split; [|split].
  - exact (proj1 at_most_one_request_in_flight coalescedSystem 1%nat
             coalescedSystem_reachable).
  - exact (proj1 (proj1 (proj2 at_most_one_request_in_flight) 1%nat
             (mkDBusNotification pendingId (Some 0%nat) []
                (QStringLiteral "Build"%string)
                (QStringLiteral "Started"%string) [] (-1) [] ∅)
             pendingWorld eq_refl eq_refl)).
  - exact (proj2 (proj2 at_most_one_request_in_flight) 1%nat 0%nat
             (mkDBusNotification pendingId2 (Some 0%nat) []
                (QStringLiteral "Build"%string)
                (QStringLiteral "Started"%string) [] (-1) [] ∅)
             7 coalescedWorld eq_refl eq_refl).
Defined.

(** C1 as stated fails in its last part.  The handle is in
    [PendingCoalesced] and the reply succeeds, yet no follow-up request is
    sent when the daemon is gone by then, nor when the identifier received
    is the sentinel 2^32-1. *)
Lemma follow_up_not_always_sent :
  stateOf <$> (m_id <$> (objects coalescedUnreachableWorld !! 1%nat))
    = Some PendingCoalesced /\
  m_watcher <$> (objects coalescedUnreachableWorld !! 1%nat) = Some (Some 0%nat) /\
  notifyCount
    (trace (handleNotifyResult 1%nat 0%nat (ReplyValue 7) coalescedUnreachableWorld))
    = notifyCount (trace coalescedUnreachableWorld) /\
  stateOf <$> (m_id <$> (objects coalescedWorld !! 1%nat)) = Some PendingCoalesced /\
  notifyCount
    (trace (handleNotifyResult 1%nat 0%nat (ReplyValue 4294967295) coalescedWorld))
    = notifyCount (trace coalescedWorld).
Proof. vm_compute. repeat split. Qed.

(** ** The image codec *)

Lemma swapLine32_at (n : nat) : forall (line : list byte) (x : nat),
  (x < n)%nat -> (4 * n <= length line)%nat ->
  exists b0 b1 b2 b3 r r',
    drop (4 * x) line = b0 :: b1 :: b2 :: b3 :: r /\
    drop (4 * x) (Qt.swapLine32 n line) = b2 :: b1 :: b0 :: b3 :: r'.
Proof.
  induction n as [|n IH]; intros line x Hx Hlen; [lia|].
  destruct line as [|b0 [|b1 [|b2 [|b3 rest]]]]; simpl in Hlen; try lia.
  destruct x as [|x].
  - exists b0, b1, b2, b3, rest, (Qt.swapLine32 n rest). split; reflexivity.
  - replace (4 * S x)%nat with (S (S (S (S (4 * x))))) by lia.
    cbn [drop Qt.swapLine32]. apply IH; lia.
Qed.

Lemma length_swapLine32 (n : nat) : forall line : list byte,
  (4 * n <= length line)%nat -> length (Qt.swapLine32 n line) = (4 * n)%nat.
Proof.
  induction n as [|n IH]; intros line Hlen; [reflexivity|].
  destruct line as [|b0 [|b1 [|b2 [|b3 rest]]]]; simpl in Hlen; try lia.
  cbn [Qt.swapLine32 length]. rewrite IH by lia. lia.
Qed.

(** Swapping a line of 32-bit pixels exchanges red and blue in each. *)
Lemma pixelOfLine_swapLine32 (f : Qt.Format) (n x : nat) (line : list byte) :
  Qt.is32bit f -> (x < n)%nat -> (4 * n <= length line)%nat ->
  is_Some (Qt.pixelOfLine f line x) /\
  Qt.pixelOfLine f (Qt.swapLine32 n line) x = Qt.swapRB <$> Qt.pixelOfLine f line x.
Proof.
  intros Hf Hx Hlen.
  destruct (swapLine32_at n line x Hx Hlen) as (b0 & b1 & b2 & b3 & r & r' & H1 & H2).
  destruct Hf as [-> | ->]; unfold Qt.pixelOfLine; rewrite H1, H2; simpl;
    (split; [eexists; reflexivity|reflexivity]).
Qed.

(** Lines of one length laid end to end. *)
Lemma flat_map_line {A} (f : nat -> list A) (k : nat) : forall h s y,
  (forall i, (s <= i < s + h)%nat -> length (f i) = k) -> (y < h)%nat ->
  take k (drop (y * k) (flat_map f (seq s h))) = f (s + y)%nat.
Proof.
  induction h as [|h IH]; intros s y Hlen Hy; [lia|].
  cbn [seq flat_map]. destruct y as [|y].
  - cbn [Nat.mul drop]. rewrite Nat.add_0_r. apply take_app_length'.
    symmetry. apply Hlen. lia.
  - replace (S y * k)%nat with (k + y * k)%nat by lia.
    rewrite drop_app_add' by (symmetry; apply Hlen; lia).
    rewrite IH; [f_equal; lia| |lia].
    intros i Hi. apply Hlen. lia.
Qed.

Lemma length_flat_map_lines {A} (f : nat -> list A) (k : nat) : forall h s,
  (forall i, (s <= i < s + h)%nat -> length (f i) = k) ->
  length (flat_map f (seq s h)) = (h * k)%nat.
Proof.
  induction h as [|h IH]; intros s Hlen; [reflexivity|].
  cbn [seq flat_map]. rewrite length_app, IH, Hlen; [lia|lia|].
  intros i Hi. apply Hlen. lia.
Qed.

Lemma length_scanLine (img : Qt.QImage) (y : nat) :
  length (Qt.bits img) = (Qt.bytesPerLine img * Qt.height img)%nat ->
  (y < Qt.height img)%nat ->
  length (Qt.scanLine img y) = Qt.bytesPerLine img.
Proof.
  intros Hbits Hy. unfold Qt.scanLine. rewrite length_take, length_drop, Hbits.
  assert (S y * Qt.bytesPerLine img <= Qt.height img * Qt.bytesPerLine img)%nat
    by (apply Nat.mul_le_mono_r; lia).
  lia.
Qed.

Lemma stdBytesPerLine_32bit (f : Qt.Format) (w : nat) :
  Qt.is32bit f -> Qt.stdBytesPerLine f w = (4 * w)%nat.
Proof.
  intros Hf. unfold Qt.stdBytesPerLine.
  assert (Hd : Qt.depthOf f = 32%nat) by now destruct Hf as [-> | ->].
  rewrite Hd. replace (w * 32 + 31)%nat with (31 + w * 32)%nat by lia.
  rewrite Nat.div_add by lia. change (31 / 32)%nat with 0%nat. lia.
Qed.

Lemma rgbSwapped_32bit (img : Qt.QImage) :
  lines32 img ->
  Qt.rgbSwapped img =
    Qt.mkQImage (Qt.format img) (Qt.width img) (Qt.height img) (4 * Qt.width img)
      (flat_map (fun y => Qt.swapLine32 (Qt.width img) (Qt.scanLine img y))
                (seq 0 (Qt.height img))).
Proof. intros ([H | H] & _). all: unfold Qt.rgbSwapped; now rewrite H. Qed.

Lemma rgbSwapped_lines32 (img : Qt.QImage) :
  lines32 img -> lines32 (Qt.rgbSwapped img).
Proof.
  intros Hl. rewrite (rgbSwapped_32bit img Hl).
  destruct Hl as (Hf & Hw & Hbits). split; [exact Hf|]. split; [simpl; lia|].
  simpl. rewrite (length_flat_map_lines _ (4 * Qt.width img)); [lia|].
  intros y Hy. apply length_swapLine32. rewrite length_scanLine; [exact Hw|exact Hbits|lia].
Qed.

Lemma rgbSwapped_scanLine (img : Qt.QImage) (y : nat) :
  lines32 img -> (y < Qt.height img)%nat ->
  Qt.scanLine (Qt.rgbSwapped img) y = Qt.swapLine32 (Qt.width img) (Qt.scanLine img y).
Proof.
  intros Hl Hy. rewrite (rgbSwapped_32bit img Hl).
  destruct Hl as (Hf & Hw & Hbits). unfold Qt.scanLine at 1. cbn [Qt.bytesPerLine Qt.bits].
  rewrite (flat_map_line _ (4 * Qt.width img) (Qt.height img) 0 y); [reflexivity| |exact Hy].
  intros i Hi. apply length_swapLine32. rewrite length_scanLine; [exact Hw|exact Hbits|lia].
Qed.

(** [rgbSwapped] exchanges red and blue of every pixel of a 32-bit image. *)
Lemma rgbSwapped_pixel (img : Qt.QImage) (x y : nat) :
  lines32 img -> (x < Qt.width img)%nat -> (y < Qt.height img)%nat ->
  is_Some (Qt.pixel img x y) /\
  Qt.pixel (Qt.rgbSwapped img) x y = Qt.swapRB <$> Qt.pixel img x y.
Proof.
  intros Hl Hx Hy. unfold Qt.pixel.
  rewrite (rgbSwapped_scanLine img y Hl Hy).
  rewrite (rgbSwapped_32bit img Hl). cbn [Qt.width Qt.height Qt.format].
  rewrite (proj2 (Nat.ltb_lt _ _) Hx), (proj2 (Nat.ltb_lt _ _) Hy). cbn [andb].
  destruct Hl as (Hf & Hw & Hbits).
  apply pixelOfLine_swapLine32; [exact Hf|exact Hx|].
  rewrite length_scanLine; [exact Hw|exact Hbits|exact Hy].
Qed.

Lemma swapRB_involutive (c : Qt.QRgb) : Qt.swapRB (Qt.swapRB c) = c.
Proof. now destruct c. Qed.

Lemma rgbSwapped_twice (img : Qt.QImage) :
  lines32 img ->
  Qt.format (Qt.rgbSwapped (Qt.rgbSwapped img)) = Qt.format img /\
  Qt.pixelIdentical (Qt.rgbSwapped (Qt.rgbSwapped img)) img.
Proof.
  intros Hl. pose proof (rgbSwapped_lines32 img Hl) as Hl'.
  assert (Hshape : Qt.format (Qt.rgbSwapped img) = Qt.format img /\
                   Qt.width (Qt.rgbSwapped img) = Qt.width img /\
                   Qt.height (Qt.rgbSwapped img) = Qt.height img).
  { rewrite (rgbSwapped_32bit img Hl). repeat split. }
  destruct Hshape as (Hf & Hw & Hh).
  assert (Hshape' : Qt.format (Qt.rgbSwapped (Qt.rgbSwapped img)) = Qt.format img /\
                    Qt.width (Qt.rgbSwapped (Qt.rgbSwapped img)) = Qt.width img /\
                    Qt.height (Qt.rgbSwapped (Qt.rgbSwapped img)) = Qt.height img).
  { rewrite (rgbSwapped_32bit _ Hl'). cbn [Qt.format Qt.width Qt.height]. auto. }
  destruct Hshape' as (Hf' & Hw' & Hh').
  split; [exact Hf'|]. split; [exact Hw'|]. split; [exact Hh'|].
  intros x y Hx Hy.
  destruct (rgbSwapped_pixel img x y Hl Hx Hy) as [[c Hc] H1].
  destruct (rgbSwapped_pixel (Qt.rgbSwapped img) x y Hl') as [_ H2];
    [rewrite Hw; exact Hx|rewrite Hh; exact Hy|].
  split; [eexists; exact Hc|].
  rewrite H2, H1, Hc. simpl. now rewrite swapRB_involutive.
Qed.

Lemma toInt32_small (z : Z) : 0 <= z < 2 ^ 31 -> toInt32 z = z.
Proof. intros H. unfold toInt32. rewrite Z.mod_small; lia. Qed.

Lemma wf_lines32 (b : Qt.QImage) :
  Qt.wf b -> Qt.is32bit (Qt.format b) -> lines32 b.
Proof.
  intros [Hw Hh Hline Hbits Hsize] Hf. split; [exact Hf|]. split; [|exact Hbits].
  now rewrite (stdBytesPerLine_32bit _ _ Hf) in Hline.
Qed.

(** Decoding what [encode] produced from a 32-bit image swaps twice. *)
Lemma decode_encode_32bit (b : Qt.QImage) :
  Qt.wf b -> Qt.is32bit (Qt.format b) ->
  decode (encode b) = Qt.rgbSwapped (Qt.rgbSwapped b).
Proof.
  intros Hwf Hf. pose proof (wf_lines32 b Hwf Hf) as Hl.
  pose proof (rgbSwapped_lines32 b Hl) as (_ & _ & Hbits').
  destruct Hwf as [Hw Hh Hline Hbits Hsize].
  unfold decode, encode, NotificationImage_ofSwapped, SwappedImage, toQImage,
    NotificationImage_ofQImage.
  cbn [isValid data width height hasAlpha].
  rewrite (rgbSwapped_32bit b Hl) in *. cbn [Qt.format Qt.width Qt.height Qt.bytesPerLine Qt.bits] in *.
  assert (Hnull : Qt.isNull
            (Qt.mkQImage (Qt.format b) (Qt.width b) (Qt.height b) (4 * Qt.width b)
               (flat_map (fun y => Qt.swapLine32 (Qt.width b) (Qt.scanLine b y))
                  (seq 0 (Qt.height b)))) = false).
  { unfold Qt.isNull. cbn [Qt.format]. now destruct Hf as [-> | ->]. }
  rewrite Hnull. cbn [negb].
  assert (Hfmt : (if Qt.hasAlphaChannel
                       (Qt.mkQImage (Qt.format b) (Qt.width b) (Qt.height b)
                          (4 * Qt.width b)
                          (flat_map (fun y => Qt.swapLine32 (Qt.width b) (Qt.scanLine b y))
                             (seq 0 (Qt.height b))))
                  then Qt.Format_ARGB32 else Qt.Format_RGB32) = Qt.format b).
  { unfold Qt.hasAlphaChannel. cbn [Qt.format]. now destruct Hf as [-> | ->]. }
  rewrite Hfmt.
  assert (Hlen : (4 * Qt.width b * Qt.height b <= Qt.bytesPerLine b * Qt.height b)%nat).
  { apply Nat.mul_le_mono_r. destruct Hl as (_ & H & _). exact H. }
  unfold Qt.sizeInBytes in *. cbn [Qt.bytesPerLine Qt.height] in *.
  rewrite toInt32_small by lia. rewrite Nat2Z.id.
  rewrite take_ge by lia.
  unfold Qt.fromData.
  rewrite (proj2 (Z.leb_gt _ _)) by lia. rewrite (proj2 (Z.leb_gt _ _)) by lia.
  cbn [orb].
  assert (Hinv : match Qt.format b with Qt.Format_Invalid => true | _ => false end = false)
    by now destruct Hf as [-> | ->].
  rewrite Hinv, !Nat2Z.id, (stdBytesPerLine_32bit _ _ Hf).
  reflexivity.
Qed.

Lemma rgbEqb_refl (c : Qt.QRgb) : Qt.rgbEqb c c = true.
Proof.
  unfold Qt.rgbEqb.
  assert (H : forall x : byte, Byte.eqb x x = true)
    by (intros x; now apply byte_dec_lb).
  now rewrite !H.
Qed.

(** The computed comparison accepts what [pixelIdentical] relates. *)
Lemma pixelIdenticalb_complete (a b : Qt.QImage) :
  Qt.pixelIdentical a b -> Qt.pixelIdenticalb a b = true.
Proof.
  intros (Hw & Hh & Hp). unfold Qt.pixelIdenticalb.
  rewrite Hw, Hh, !Nat.eqb_refl. cbn [andb].
  apply forallb_forall. intros y Hy%in_seq.
  apply forallb_forall. intros x Hx%in_seq.
  destruct (Hp x y) as [[c Hc] Heq]; [lia|lia|].
  unfold Qt.samePixel. rewrite Heq, Hc. apply rgbEqb_refl.
Qed.

Lemma argb32Image_wf : Qt.wf argb32Image.
Proof. constructor; cbv; try lia; reflexivity. Qed.

Lemma rgb888Pixel_wf : Qt.wf rgb888Pixel.
Proof. constructor; cbv; try lia; reflexivity. Qed.

(** C8, as the code has it.  For every bitmap stored in one of the 32-bit
    formats [Format_RGB32] and [Format_ARGB32], decoding the encoded bitmap
    gives a bitmap of the same format and size with the same colour at
    every coordinate; and a [NotificationImage] whose [isValid] is false
    decodes to the null image. *)
Theorem roundtrip_32bit :
  (forall b, Qt.wf b -> Qt.is32bit (Qt.format b) ->
     Qt.format (decode (encode b)) = Qt.format b /\
     Qt.pixelIdentical (decode (encode b)) b) /\
  (forall n, isValid n = false -> decode n = Qt.null).
Proof.
  split.
  - intros b Hwf Hf. rewrite (decode_encode_32bit b Hwf Hf).
    apply rgbSwapped_twice. now apply wf_lines32.
  - intros n Hn. unfold decode, toQImage. now rewrite Hn.
Qed.

Lemma roundtrip_32bit_witness :
  Qt.format (decode (encode argb32Image)) = Qt.Format_ARGB32 /\
  Qt.pixelIdentical (decode (encode argb32Image)) argb32Image.
Proof.
  exact (proj1 roundtrip_32bit argb32Image argb32Image_wf (or_intror eq_refl)).
Defined.

(** C8 as stated fails for a 24-bit RGB bitmap.  The bitmap of one pixel
    with red 1, green 2, blue 3 is neither null nor grayscale nor indexed;
    [toQImage] reads its bytes as [Format_RGB32] and the pixel comes back
    with red 3, green 2, blue 1. *)
Lemma roundtrip_fails_for_rgb888 :
  Qt.isNull rgb888Pixel = false /\
  Qt.isGrayscale rgb888Pixel = false /\
  Qt.pixel rgb888Pixel 0 0 = Some (Qt.mkRgb xff x01 x02 x03) /\
  Qt.format (decode (encode rgb888Pixel)) = Qt.Format_RGB32 /\
  Qt.pixel (decode (encode rgb888Pixel)) 0 0 = Some (Qt.mkRgb xff x03 x02 x01) /\
  Qt.pixelIdenticalb (decode (encode rgb888Pixel)) rgb888Pixel = false.
Proof. vm_compute. repeat split. Qed.

(** ** Further properties of the lifecycle controller *)

Lemma emitted_app (t1 t2 : list Event) :
  emitted (t1 ++ t2) = emitted t1 ++ emitted t2.
Proof. apply omap_app. Qed.

Lemma show_keeps_registry (this : Addr) (w : World) :
  pendingNotifications (snd (show this w)) = pendingNotifications w.
Proof.
  unfold show. destruct (objects w !! this) as [n|]; [|reflexivity].
  destruct (isPending n); [reflexivity|].
  destruct (interfaceValid w); reflexivity.
Qed.

Lemma show_keeps_live (this : Addr) (n : DBusNotification) (w : World) :
  objects w !! this = Some n ->
  exists n', objects (snd (show this w)) !! this = Some n' /\
             (m_id n <> 0 -> m_id n' <> 0) /\ m_msg n' = m_msg n.
Proof.
  intros Hn. unfold show. rewrite Hn.
  destruct (isPending n); [|destruct (interfaceValid w)]; simpl.
  - eexists. rewrite lookup_insert_eq. split; [reflexivity|]. split; [|reflexivity].
    intros _. discriminate.
  - eexists. rewrite lookup_insert_eq. split; [reflexivity|]. split; [|reflexivity].
    intros _. discriminate.
  - exists n. auto.
Qed.

Lemma handleNotificationClosed_registered (id reason : Z) (a : Addr) (w : World) :
  pendingNotifications w !! id = Some a ->
  handleNotificationClosed id reason w =
    mkWorld (alter (set_m_id initialId) a (objects w))
      (delete id (pendingNotifications w))
      (interfaceValid w) (applicationName w) (nextWatcher w)
      (trace w ++ [MutexLock; Emit a (closed (closeReason reason)); MapErase id;
                   MutexUnlock]).
Proof.
  intros Hreg. unfold handleNotificationClosed. simpl.
  destruct (find_registered _ _ _ Hreg) as [Hf Hs]. rewrite Hs, Hf. simpl.
  unfold record, setMap, assignId. simpl. now rewrite <- !app_assoc.
Qed.

Lemma handleNotificationClosed_unregistered (id reason : Z) (w : World) :
  pendingNotifications w !! id = None ->
  handleNotificationClosed id reason w = record MutexUnlock (record MutexLock w).
Proof.
  intros Hreg. unfold handleNotificationClosed. simpl.
  now rewrite (find_unregistered _ _ Hreg).
Qed.

Lemma destructor_registry_objects (this : Addr) (n : DBusNotification) (w : World) :
  objects w !! this = Some n ->
  pendingNotifications (destructor this w) = delete (m_id n) (pendingNotifications w) /\
  objects (destructor this w) = delete this (objects w).
Proof.
  intros Hn. unfold destructor. rewrite Hn. unfold find. simpl.
  destruct (pendingNotifications w !! m_id n) as [a|] eqn:Hreg; simpl;
    unfold hide; simpl; rewrite Hn;
    destruct (m_id n =? 0); simpl;
    rewrite ?(delete_id _ _ Hreg); split; reflexivity.
Qed.

(** X1. The destructor removes the registry entry under the handle's current
    identifier and no other, releases the mutex, and then asks the daemon
    to close the notification exactly when the identifier is not 0 (so also
    for a pending handle, with the sentinel as identifier); the object is
    gone afterwards. *)
Theorem destructor_deregisters_then_closes (this : Addr) (n : DBusNotification)
    (w : World) :
  objects w !! this = Some n ->
  objects (destructor this w) = delete this (objects w) /\
  pendingNotifications (destructor this w) = delete (m_id n) (pendingNotifications w) /\
  trace (destructor this w) =
    trace w ++ [MutexLock]
      ++ match pendingNotifications w !! m_id n with
         | Some _ => [MapErase (m_id n)]
         | None => []
         end
      ++ [MutexUnlock]
      ++ (if m_id n =? 0 then [] else [CloseNotification (Some (m_id n))]).
Proof.
  intros Hn. unfold destructor. rewrite Hn. unfold find. simpl.
  destruct (pendingNotifications w !! m_id n) as [a|] eqn:Hreg; simpl;
    unfold hide; simpl; rewrite Hn;
    destruct (m_id n =? 0); simpl;
    rewrite ?(delete_id _ _ Hreg), <- ?app_assoc; repeat split.
Qed.

Lemma destructor_deregisters_then_closes_witness :
  objects (destructor 1%nat shownWorld) = delete 1%nat (objects shownWorld) /\
  pendingNotifications (destructor 1%nat shownWorld) =
    delete 7 (pendingNotifications shownWorld) /\
  trace (destructor 1%nat shownWorld) =
    trace shownWorld ++ [MutexLock]
      ++ match pendingNotifications shownWorld !! 7 with
         | Some _ => [MapErase 7]
         | None => []
         end
      ++ [MutexUnlock]
      ++ (if 7 =? 0 then [] else [CloseNotification (Some 7)]).
Proof.
  exact (destructor_deregisters_then_closes 1%nat
           (mkDBusNotification 7 None [] (QStringLiteral "Build"%string)
              (QStringLiteral "Started"%string) [] (-1) [] ∅)
           shownWorld eq_refl).
Defined.

(** X2. An entry that maps another identifier to the handle survives the
    destructor: a handle destroyed while it is pending again (its identifier
    is a sentinel, its entry is under the identifier it was assigned) leaves
    the registry pointing at an object that no longer exists. *)
Theorem destructor_leaves_other_entries (this : Addr) (n : DBusNotification)
    (k : IDType) (w : World) :
  objects w !! this = Some n ->
  pendingNotifications w !! k = Some this -> k <> m_id n ->
  pendingNotifications (destructor this w) !! k = Some this /\
  objects (destructor this w) !! this = None.
Proof.
  intros Hn Hk Hne.
  destruct (destructor_registry_objects this n w Hn) as [-> ->].
  rewrite lookup_delete_ne by congruence. rewrite lookup_delete_eq. auto.
Qed.

Lemma destructor_leaves_other_entries_witness :
  pendingNotifications (destructor 1%nat reshowingWorld) !! 7 = Some 1%nat /\
  objects (destructor 1%nat reshowingWorld) !! 1%nat = None.
Proof.
  exact (destructor_leaves_other_entries 1%nat
           (mkDBusNotification pendingId (Some 1%nat) []
              (QStringLiteral "Build"%string)
              (QStringLiteral "Started"%string) [] (-1) [] ∅)
           7 reshowingWorld eq_refl eq_refl ltac:(discriminate)).
Defined.

Lemma handleNotifyResult_registry (this : Addr) (watcher : Watcher)
    (n : DBusNotification) (id : IDType) (w : World) :
  objects w !! this = Some n -> m_watcher n = Some watcher ->
  pendingNotifications (handleNotifyResult this watcher (ReplyValue id) w) =
    <[id := this]> (pendingNotifications w).
Proof.
  intros Hn Hw. rewrite (handleNotifyResult_value this watcher n id w Hn Hw).
  destruct (m_id n =? pendingId2); [rewrite show_keeps_registry|]; reflexivity.
Qed.

(** X3. Registering and deregistering undo each other.  When the reply
    carrying [id] is followed by the daemon's [NotificationClosed(id, _)],
    the handle's identifier is 0 again, [closed] is the last signal emitted,
    and the registry is what it was with any entry for [id] removed; this
    holds for every [id], a follow-up request in between or not. *)
Theorem reply_then_closed_deregisters (this : Addr) (watcher : Watcher)
    (n : DBusNotification) (id : IDType) (reason : Z) (w : World) :
  objects w !! this = Some n -> m_watcher n = Some watcher ->
  m_id <$> (objects (handleNotificationClosed id reason
                       (handleNotifyResult this watcher (ReplyValue id) w)) !! this)
    = Some 0 /\
  pendingNotifications (handleNotificationClosed id reason
                          (handleNotifyResult this watcher (ReplyValue id) w))
    = delete id (pendingNotifications w) /\
  last (emitted (trace (handleNotificationClosed id reason
                          (handleNotifyResult this watcher (ReplyValue id) w))))
    = Some (this, closed (closeReason reason)).
Proof.
  intros Hn Hw.
  pose proof (handleNotifyResult_registry this watcher n id w Hn Hw) as Hreg.
  pose proof (handleNotifyResult_final this watcher n id w Hn Hw) as Hobj.
  set (w1 := handleNotifyResult this watcher (ReplyValue id) w) in *.
  assert (Hid : pendingNotifications w1 !! id = Some this)
    by (rewrite Hreg; apply lookup_insert_eq).
  rewrite (handleNotificationClosed_registered id reason this w1 Hid).
  cbn [objects pendingNotifications trace].
  rewrite lookup_alter_eq, Hobj, Hreg, delete_insert_eq.
  split; [reflexivity|]. split; [reflexivity|].
  rewrite emitted_app. cbn. apply last_snoc.
Qed.

Lemma reply_then_closed_deregisters_witness :
  m_id <$> (objects (handleNotificationClosed 7 2
                       (handleNotifyResult 1%nat 0%nat (ReplyValue 7) pendingWorld))
              !! 1%nat) = Some 0 /\
  pendingNotifications (handleNotificationClosed 7 2
                          (handleNotifyResult 1%nat 0%nat (ReplyValue 7) pendingWorld))
    = delete 7 (pendingNotifications pendingWorld) /\
  last (emitted (trace (handleNotificationClosed 7 2
                          (handleNotifyResult 1%nat 0%nat (ReplyValue 7) pendingWorld))))
    = Some (1%nat, closed (closeReason 2)).
Proof.
  exact (reply_then_closed_deregisters 1%nat 0%nat
           (mkDBusNotification pendingId (Some 0%nat) []
              (QStringLiteral "Build"%string)
              (QStringLiteral "Started"%string) [] (-1) [] ∅)
           7 2 pendingWorld eq_refl eq_refl).
Defined.

Lemma handled_unregistered (id : IDType) (reason : Z) (action : QString) (w : World) :
  pendingNotifications (handleNotificationClosed id reason w) !! id = None /\
  pendingNotifications (handleActionInvoked id action w) !! id = None.
Proof.
  split.
  - destruct (pendingNotifications w !! id) as [a|] eqn:Hreg.
    + rewrite (handleNotificationClosed_registered id reason a w Hreg).
      apply lookup_delete_eq.
    + now rewrite (handleNotificationClosed_unregistered id reason w Hreg).
  - unfold handleActionInvoked, find. simpl.
    destruct (pendingNotifications w !! id) as [a|] eqn:Hreg; simpl.
    + rewrite Hreg. simpl. apply lookup_delete_eq.
    + exact Hreg.
Qed.

(** X4. A closure is reported once.  After [NotificationClosed] or
    [ActionInvoked] has been handled for [id], the identifier is not
    registered, and a further [NotificationClosed] or [ActionInvoked] for
    [id] changes no object and no entry, emits no signal and makes no
    outbound call. *)
Theorem later_signals_for_handled_id_ignored (id : IDType) (reason reason' : Z)
    (action action' : QString) (w : World) :
  forall w1,
    w1 = handleNotificationClosed id reason w \/ w1 = handleActionInvoked id action w ->
    forall w2,
      w2 = handleNotificationClosed id reason' w1 \/ w2 = handleActionInvoked id action' w1 ->
      pendingNotifications w1 !! id = None /\
      objects w2 = objects w1 /\
      pendingNotifications w2 = pendingNotifications w1 /\
      emitted (trace w2) = emitted (trace w1) /\
      outboundCalls (trace w2) = outboundCalls (trace w1).
Proof.
  intros w1 H1 w2 H2.
  assert (Hnone : pendingNotifications w1 !! id = None).
  { destruct (handled_unregistered id reason action w) as [Ha Hb].
    destruct H1 as [-> | ->]; assumption. }
  split; [exact Hnone|].
  assert (Hw2 : w2 = record MutexUnlock (record MutexLock w1)).
  { destruct H2 as [-> | ->].
    - now apply handleNotificationClosed_unregistered.
    - now apply handleActionInvoked_unregistered. }
  rewrite Hw2. cbn [objects pendingNotifications trace record].
  rewrite <- app_assoc, emitted_app. unfold outboundCalls.
  rewrite List.filter_app. cbn. rewrite !app_nil_r. repeat split.
Qed.

(** Scenario E, and the daemon's own [NotificationClosed(7, 3)] after it. *)
Lemma later_signals_for_handled_id_ignored_witness :
  pendingNotifications (handleActionInvoked 7 (QStringLiteral "retry"%string) shownWorld)
    !! 7 = None /\
  objects (handleNotificationClosed 7 3
             (handleActionInvoked 7 (QStringLiteral "retry"%string) shownWorld))
    = objects (handleActionInvoked 7 (QStringLiteral "retry"%string) shownWorld) /\
  pendingNotifications
    (handleNotificationClosed 7 3
       (handleActionInvoked 7 (QStringLiteral "retry"%string) shownWorld))
    = pendingNotifications
        (handleActionInvoked 7 (QStringLiteral "retry"%string) shownWorld) /\
  emitted (trace (handleNotificationClosed 7 3
                    (handleActionInvoked 7 (QStringLiteral "retry"%string) shownWorld)))
    = emitted (trace (handleActionInvoked 7 (QStringLiteral "retry"%string) shownWorld)) /\
  outboundCalls
    (trace (handleNotificationClosed 7 3
              (handleActionInvoked 7 (QStringLiteral "retry"%string) shownWorld)))
    = outboundCalls
        (trace (handleActionInvoked 7 (QStringLiteral "retry"%string) shownWorld)).
Proof.
  exact (later_signals_for_handled_id_ignored 7 0 3
           (QStringLiteral "retry"%string) [] shownWorld
           _ (or_intror eq_refl) _ (or_introl eq_refl)).
Defined.

(** X5. In a run of constructions, [show()], [show(message)], [update()],
    [hide()], replies and changes of the daemon's presence, every request
    in flight is the one its handle waits for: the handle is alive, its
    watcher is that of the request and it is pending.  No reply in such a
    run is discarded by the watcher comparison of [handleNotifyResult]. *)
Theorem request_in_flight_is_awaited (s : System) (this : Addr) (watcher : Watcher) :
  reachable s -> watcher ∈ outstanding s this ->
  exists n, objects (world s) !! this = Some n /\
            m_watcher n = Some watcher /\ isPending n = true.
Proof.
  intros Hr Hin. pose proof (Inv_reachable s Hr) as HI.
  pose proof (proj1 HI this) as Hh. unfold handleInv in Hh.
  unfold outstanding in Hin.
  destruct (objects (world s) !! this) as [n|].
  - destruct Hh as [Hout Hpend]. rewrite Hout in Hin.
    destruct (m_watcher n) as [x|] eqn:Hw; [|now apply elem_of_nil in Hin].
    apply list_elem_of_singleton in Hin. subst x.
    exists n. split; [reflexivity|]. split; [exact Hw|].
    apply Hpend. discriminate.
  - apply outstandingOf_dispatched in Hin. rewrite Hh in Hin.
    now apply elem_of_nil in Hin.
Qed.

Lemma coalescedSystem_outstanding : 0%nat ∈ outstanding coalescedSystem 1%nat.
Proof. vm_compute. apply list_elem_of_here. Qed.

Lemma request_in_flight_is_awaited_witness :
  exists n, objects (world coalescedSystem) !! 1%nat = Some n /\
            m_watcher n = Some 0%nat /\ isPending n = true.
Proof.
  exact (request_in_flight_is_awaited coalescedSystem 1%nat 0%nat
           coalescedSystem_reachable coalescedSystem_outstanding).
Defined.

Lemma runOperation_disciplined (o : Operation) (w : World) :
  disciplined (trace w) -> disciplined (trace (runOperation o w)).
Proof.
  intros Hd. destruct o; simpl.
  - exact Hd.
  - now apply show_disciplined.
  - now apply show_message_disciplined.
  - now apply update_disciplined.
  - now apply hide_disciplined.
  - now apply queryCapabilities_disciplined.
  - now apply handleNotifyResult_disciplined.
  - now apply handleNotificationClosed_disciplined.
  - now apply destructor_disciplined.
  - exact Hd.
Qed.

(** X6. Every operation of the class other than the handler of
    [ActionInvoked] keeps the lock discipline, in any order and any number:
    when no outbound call was made under [pendingNotificationsMutex] and the
    mutex was free before, the same holds after the operations. *)
Theorem operations_keep_lock_discipline (ops : list Operation) (w : World) :
  disciplined (trace w) -> disciplined (trace (runOperations ops w)).
Proof.
  revert w. induction ops as [|o ops IH]; intros w Hd; [exact Hd|].
  apply IH. now apply runOperation_disciplined.
Qed.

Lemma emptyWorld_disciplined : disciplined (trace emptyWorld).
Proof. split; reflexivity. Qed.

Lemma operations_keep_lock_discipline_witness :
  disciplined
    (trace (runOperations
              [OpConstruct 1%nat (QStringLiteral "Build"%string) [] (-1);
               OpShowMessage 1%nat (QStringLiteral "Started"%string);
               OpShow 1%nat;
               OpNotifyResult 1%nat 0%nat (ReplyValue 7);
               OpNotificationClosed 7 2;
               OpDestroy 1%nat]
              emptyWorld)).
Proof.
  exact (operations_keep_lock_discipline _ emptyWorld emptyWorld_disciplined).
Defined.

(** X7. [show()] returns false exactly when the handle is not pending and
    the interface is not valid.  On a pending handle it returns true
    whether or not the daemon can be reached, and sends nothing. *)
Theorem show_fails_iff_idle_and_unreachable (this : Addr) (n : DBusNotification)
    (w : World) :
  objects w !! this = Some n ->
  (fst (show this w) = false <-> isPending n = false /\ interfaceValid w = false) /\
  (isPending n = true ->
     fst (show this w) = true /\ trace (snd (show this w)) = trace w).
Proof.
  intros Hn. unfold show. rewrite Hn.
  destruct (isPending n); [|destruct (interfaceValid w)]; simpl.
  - split; [|auto]. split; [discriminate|]. intros [H _]. discriminate H.
  - split; [|discriminate]. split; [discriminate|]. intros [_ H]. discriminate H.
  - split; [|discriminate]. split; auto.
Qed.

Lemma show_fails_iff_idle_and_unreachable_witness :
  (fst (show 1%nat coalescedUnreachableWorld) = false <->
     true = false /\ interfaceValid coalescedUnreachableWorld = false) /\
  (true = true ->
     fst (show 1%nat coalescedUnreachableWorld) = true /\
     trace (snd (show 1%nat coalescedUnreachableWorld)) = trace coalescedUnreachableWorld).
Proof.
  exact (show_fails_iff_idle_and_unreachable 1%nat
           (mkDBusNotification pendingId2 (Some 0%nat) []
              (QStringLiteral "Build"%string)
              (QStringLiteral "Started"%string) [] (-1) [] ∅)
           coalescedUnreachableWorld eq_refl).
Defined.

(** X8. The first [show(message)] of a handle just constructed, with the
    daemon reachable, sends one [Notify] that creates a notification: it
    replaces identifier 0, is named after the application (the handle has no
    name of its own), carries the title, icon and timeout of the
    constructor, the message as body, and neither actions nor hints.  The
    handle is then in [PendingSingle], waiting on that request. *)
Theorem first_show_creates_notification (this : Addr) (title icon message : QString)
    (timeout : Z) (w : World) :
  interfaceValid w = true ->
  fst (show_message this message (construct this title icon timeout w)) = true /\
  trace (snd (show_message this message (construct this title icon timeout w))) =
    trace w ++
      [Notify (nextWatcher w) this
         (mkNotifyArgs (applicationName w) 0 icon title message [] ∅ timeout)] /\
  objects (snd (show_message this message (construct this title icon timeout w)))
    !! this =
    Some (mkDBusNotification pendingId (Some (nextWatcher w)) [] title message icon
            timeout [] ∅) /\
  stateOf pendingId = PendingSingle /\
  pendingNotifications
    (snd (show_message this message (construct this title icon timeout w))) =
    pendingNotifications w.
Proof.
  intros Hv.
  unfold show_message, construct. cbn [objects store].
  rewrite lookup_insert_eq.
  unfold show. cbn [objects store]. rewrite lookup_insert_eq.
  change (isPending _) with false.
  cbn [interfaceValid store]. rewrite Hv. cbn.
  rewrite lookup_insert_eq. repeat split.
Qed.

Lemma first_show_creates_notification_witness :
  fst (show_message 1%nat (QStringLiteral "Started"%string) builtWorld) = true /\
  trace (snd (show_message 1%nat (QStringLiteral "Started"%string) builtWorld)) =
    trace emptyWorld ++
      [Notify 0%nat 1%nat
         (mkNotifyArgs (QStringLiteral "app"%string) 0 []
            (QStringLiteral "Build"%string) (QStringLiteral "Started"%string)
            [] ∅ (-1))] /\
  objects (snd (show_message 1%nat (QStringLiteral "Started"%string) builtWorld))
    !! 1%nat =
    Some (mkDBusNotification pendingId (Some 0%nat) [] (QStringLiteral "Build"%string)
            (QStringLiteral "Started"%string) [] (-1) [] ∅) /\
  stateOf pendingId = PendingSingle /\
  pendingNotifications
    (snd (show_message 1%nat (QStringLiteral "Started"%string) builtWorld)) =
    pendingNotifications emptyWorld.
Proof.
  exact (first_show_creates_notification 1%nat (QStringLiteral "Build"%string) []
           (QStringLiteral "Started"%string) (-1) emptyWorld eq_refl).
Defined.

Lemma updatedMessage_assigned (n : DBusNotification) (line : QString) :
  m_id n <> 0 -> m_msg n <> [] ->
  updatedMessage n line =
    (if startsWith (m_msg n) bullet then m_msg n else bulletSpace ++ m_msg n)
      ++ newlineBulletSpace ++ line.
Proof.
  intros Hid Hmsg. unfold updatedMessage.
  rewrite update_replaces_iff_unassigned, (proj2 (Z.eqb_neq _ _) Hid).
  destruct (m_msg n) as [|c m] eqn:E; [congruence|]. cbn [isEmpty orb].
  unfold append, insert0. destruct (startsWith (c :: m) bullet); cbn [negb];
    now rewrite <- app_assoc.
Qed.

(** X9. Once a notification is shown, [update(line)] changes it in place.
    After the reply carrying a proper identifier [id] to a handle in
    [PendingSingle] with a message, [update(line)] with the daemon reachable
    sends one [Notify] whose [replaces_id] is [id] and whose body is the old
    message as a bulleted entry followed by [line] as a second one. *)
Theorem update_of_shown_replaces_in_place (this : Addr) (watcher : Watcher)
    (n : DBusNotification) (id : IDType) (line : QString) (w : World) :
  objects w !! this = Some n -> m_watcher n = Some watcher ->
  m_id n = pendingId -> 0 < id < 2 ^ 32 - 2 ->
  interfaceValid w = true -> m_msg n <> [] ->
  exists args,
    trace (snd (update this line
                  (handleNotifyResult this watcher (ReplyValue id) w))) =
      trace (handleNotifyResult this watcher (ReplyValue id) w)
        ++ [Notify (nextWatcher w) this args] /\
    arg_replacesId args = id /\
    arg_title args = m_title n /\
    arg_body args =
      (if startsWith (m_msg n) bullet then m_msg n else [8226%N; 32%N] ++ m_msg n)
        ++ [10%N; 8226%N; 32%N] ++ line /\
    fst (update this line (handleNotifyResult this watcher (ReplyValue id) w)) = true.
Proof.
  intros Hn Hw Hid Hr Hv Hmsg.
  rewrite (handleNotifyResult_value this watcher n id w Hn Hw), Hid.
  change (pendingId =? pendingId2) with false. cbv iota.
  unfold update. rewrite shownPoint_lookup.
  set (n1 := set_m_id id (set_m_watcher None n)).
  rewrite (updatedMessage_assigned n1 line); [|simpl; lia|exact Hmsg].
  set (n2 := set_m_msg _ n1).
  assert (Hp : isPending n2 = false) by (apply isPending_assigned; simpl; lia).
  rewrite (show_dispatch this n2 (store this n2 (shownPoint this n id w))
             (lookup_insert_eq _ _ _) Hp Hv).
  eexists. cbn [snd fst trace store record newWatcher nextWatcher shownPoint].
  split; [reflexivity|]. repeat split.
Qed.

(** Scenario B. *)
Lemma update_of_shown_replaces_in_place_witness :
  exists args,
    trace (snd (update 1%nat (QStringLiteral "Step 2"%string)
                  (handleNotifyResult 1%nat 0%nat (ReplyValue 7) pendingWorld))) =
      trace (handleNotifyResult 1%nat 0%nat (ReplyValue 7) pendingWorld)
        ++ [Notify (nextWatcher pendingWorld) 1%nat args] /\
    arg_replacesId args = 7 /\
    arg_title args = QStringLiteral "Build"%string /\
    arg_body args =
      ([8226%N; 32%N] ++ QStringLiteral "Started"%string)
        ++ [10%N; 8226%N; 32%N] ++ QStringLiteral "Step 2"%string /\
    fst (update 1%nat (QStringLiteral "Step 2"%string)
           (handleNotifyResult 1%nat 0%nat (ReplyValue 7) pendingWorld)) = true.
Proof.
  exact (update_of_shown_replaces_in_place 1%nat 0%nat
           (mkDBusNotification pendingId (Some 0%nat) []
              (QStringLiteral "Build"%string)
              (QStringLiteral "Started"%string) [] (-1) [] ∅)
           7 (QStringLiteral "Step 2"%string) pendingWorld
           eq_refl eq_refl eq_refl ltac:(lia) eq_refl ltac:(discriminate)).
Defined.

Lemma startsWith_app (s t p : QString) :
  startsWith s p = true -> startsWith (s ++ t) p = true.
Proof.
  revert s. induction p as [|c p IH]; intros s H; [now destruct (s ++ t)|].
  destruct s as [|d s]; [discriminate H|]. simpl in *.
  apply andb_true_iff in H as [H1 H2]. now rewrite H1, IH.
Qed.

Lemma update_object (this : Addr) (n : DBusNotification) (line : QString) (w : World) :
  objects w !! this = Some n ->
  exists n', objects (snd (update this line w)) !! this = Some n' /\
             (m_id n <> 0 -> m_id n' <> 0) /\
             m_msg n' = updatedMessage n line.
Proof.
  intros Hn. unfold update. rewrite Hn.
  destruct (show_keeps_live this (set_m_msg (updatedMessage n line) n)
              (store this (set_m_msg (updatedMessage n line) n) w))
    as (n' & Hl & Hid & Hm); [apply lookup_insert_eq|].
  exists n'. auto.
Qed.

(** X10. Updates accumulate as a bulleted list and the first entry is
    marked once.  On a handle that is pending or shown (identifier not 0)
    with a message, two calls of [update] leave the old message, marked
    with a bullet unless it started with one, followed by the two lines as
    bulleted entries - whatever the calls return and whether or not a
    request was sent. *)
Theorem updates_accumulate (this : Addr) (n : DBusNotification)
    (line1 line2 : QString) (w : World) :
  objects w !! this = Some n -> m_id n <> 0 -> m_msg n <> [] ->
  m_msg <$> (objects (snd (update this line2 (snd (update this line1 w)))) !! this) =
    Some ((if startsWith (m_msg n) bullet then m_msg n else [8226%N; 32%N] ++ m_msg n)
            ++ [10%N; 8226%N; 32%N] ++ line1 ++ [10%N; 8226%N; 32%N] ++ line2).
Proof.
  intros Hn Hid Hmsg.
  destruct (update_object this n line1 w Hn) as (n1 & H1 & Hid1 & Hm1).
  destruct (update_object this n1 line2 _ H1) as (n2 & H2 & _ & Hm2).
  rewrite H2. cbn. f_equal. rewrite Hm2.
  rewrite (updatedMessage_assigned n line1 Hid Hmsg) in Hm1.
  assert (Hne : m_msg n1 <> []).
  { rewrite Hm1. destruct (startsWith (m_msg n) bullet);
      destruct (m_msg n); try congruence; discriminate. }
  rewrite (updatedMessage_assigned n1 line2 (Hid1 Hid) Hne), Hm1.
  assert (Hb : startsWith
                 ((if startsWith (m_msg n) bullet then m_msg n
                   else bulletSpace ++ m_msg n) ++ newlineBulletSpace ++ line1)
                 bullet = true).
  { apply startsWith_app. destruct (startsWith (m_msg n) bullet) eqn:E;
      [exact E|reflexivity]. }
  rewrite Hb. unfold bulletSpace, newlineBulletSpace.
  now rewrite <- !app_assoc.
Qed.

Lemma updates_accumulate_witness :
  m_msg <$> (objects (snd (update 1%nat (QStringLiteral "Step 3"%string)
                             (snd (update 1%nat (QStringLiteral "Step 2"%string)
                                     shownWorld)))) !! 1%nat) =
    Some (([8226%N; 32%N] ++ QStringLiteral "Started"%string)
            ++ [10%N; 8226%N; 32%N] ++ QStringLiteral "Step 2"%string
            ++ [10%N; 8226%N; 32%N] ++ QStringLiteral "Step 3"%string).
Proof.
  exact (updates_accumulate 1%nat
           (mkDBusNotification 7 None [] (QStringLiteral "Build"%string)
              (QStringLiteral "Started"%string) [] (-1) [] ∅)
           (QStringLiteral "Step 2"%string) (QStringLiteral "Step 3"%string)
           shownWorld eq_refl ltac:(discriminate) ltac:(discriminate)).
Defined.

(** ** Further properties of the image codec *)

Lemma rgbSwapped_null (b : Qt.QImage) : Qt.isNull b = true -> Qt.rgbSwapped b = b.
Proof.
  unfold Qt.isNull, Qt.rgbSwapped. destruct (Qt.format b); try discriminate. reflexivity.
Qed.

(** X11. A null bitmap encodes to an image that is not valid, with nothing
    written to its D-Bus structure, and decodes back to the null bitmap. *)
Theorem encode_of_null_is_invalid (b : Qt.QImage) :
  Qt.isNull b = true ->
  isValid (encode b) = false /\
  argument (encode b) = None /\
  decode (encode b) = Qt.null.
Proof.
  intros Hnull.
  unfold decode, toQImage, encode, NotificationImage_ofSwapped, SwappedImage.
  rewrite (rgbSwapped_null b Hnull).
  unfold NotificationImage_ofQImage. cbn [isValid argument].
  rewrite Hnull. repeat split.
Qed.

Lemma encode_of_null_is_invalid_witness :
  isValid (encode Qt.null) = false /\
  argument (encode Qt.null) = None /\
  decode (encode Qt.null) = Qt.null.
Proof. exact (encode_of_null_is_invalid Qt.null eq_refl). Defined.

Lemma length_swapLine24 (n : nat) : forall line : list byte,
  (3 * n <= length line)%nat -> length (Qt.swapLine24 n line) = (3 * n)%nat.
Proof.
  induction n as [|n IH]; intros line Hlen; [reflexivity|].
  destruct line as [|b0 [|b1 [|b2 rest]]]; simpl in Hlen; try lia.
  cbn [Qt.swapLine24 length]. rewrite IH by lia. lia.
Qed.

Lemma stdBytesPerLine_rgb888 (w : nat) :
  (3 * w <= Qt.stdBytesPerLine Qt.Format_RGB888 w)%nat.
Proof.
  unfold Qt.stdBytesPerLine. cbn [Qt.depthOf].
  pose proof (Nat.div_mod_eq (w * 24 + 31) 32) as H1.
  pose proof (Nat.mod_upper_bound (w * 24 + 31) 32) as H2.
  lia.
Qed.

(** The image [rgbSwapped] returns for a well-formed one has the same size,
    fills its buffer line by line, and has lines no longer than before. *)
Lemma rgbSwapped_shape (b : Qt.QImage) :
  Qt.wf b ->
  Qt.format (Qt.rgbSwapped b) = Qt.format b /\
  Qt.width (Qt.rgbSwapped b) = Qt.width b /\
  Qt.height (Qt.rgbSwapped b) = Qt.height b /\
  length (Qt.bits (Qt.rgbSwapped b)) =
    (Qt.bytesPerLine (Qt.rgbSwapped b) * Qt.height b)%nat /\
  (Qt.bytesPerLine (Qt.rgbSwapped b) <= Qt.bytesPerLine b)%nat.
Proof.
  intros [Hw Hh Hline Hbits Hsize].
  destruct (Qt.format b) eqn:Hf.
  - unfold Qt.rgbSwapped. rewrite Hf. repeat split; auto.
  - assert (Hl : lines32 b).
    { split; [left; exact Hf|]. split; [|exact Hbits].
      rewrite (stdBytesPerLine_32bit Qt.Format_RGB32) in Hline; [exact Hline|now left]. }
    destruct (rgbSwapped_lines32 b Hl) as (_ & _ & Hb).
    rewrite (rgbSwapped_32bit b Hl) in *. cbn in *.
    destruct Hl as (_ & H4 & _). rewrite Hf. repeat split; auto; lia.
  - assert (Hl : lines32 b).
    { split; [right; exact Hf|]. split; [|exact Hbits].
      rewrite (stdBytesPerLine_32bit Qt.Format_ARGB32) in Hline; [exact Hline|now right]. }
    destruct (rgbSwapped_lines32 b Hl) as (_ & _ & Hb).
    rewrite (rgbSwapped_32bit b Hl) in *. cbn in *.
    destruct Hl as (_ & H4 & _). rewrite Hf. repeat split; auto; lia.
  - unfold Qt.rgbSwapped. rewrite Hf. cbn [Qt.format Qt.width Qt.height Qt.bits Qt.bytesPerLine].
    pose proof (stdBytesPerLine_rgb888 (Qt.width b)) as H3.
    repeat split; auto.
    rewrite (length_flat_map_lines _ (Qt.stdBytesPerLine Qt.Format_RGB888 (Qt.width b)));
      [lia|].
    intros y Hy. rewrite length_app, length_replicate, length_swapLine24; [lia|].
    rewrite length_scanLine; [lia|exact Hbits|lia].
  - unfold Qt.rgbSwapped. rewrite Hf. repeat split; auto.
Qed.

(** X12. For every well-formed bitmap that is not null, of any format, the
    encoded image is valid, has the bitmap's width and height, a row stride
    not above the bitmap's line length, and exactly [rowstride * height]
    bytes of data; its D-Bus structure holds these same members. *)
Theorem encode_buffer_matches_stride (b : Qt.QImage) :
  Qt.wf b -> Qt.isNull b = false ->
  isValid (encode b) = true /\
  width (encode b) = Z.of_nat (Qt.width b) /\
  height (encode b) = Z.of_nat (Qt.height b) /\
  0 <= rowstride (encode b) <= Z.of_nat (Qt.bytesPerLine b) /\
  Z.of_nat (length (data (encode b))) = rowstride (encode b) * height (encode b) /\
  argument (encode b) = Some (marshall (encode b)).
Proof.
  intros Hwf Hnull.
  destruct (rgbSwapped_shape b Hwf) as (Hf & Hw & Hh & Hb & Hle).
  destruct Hwf as [Hw0 Hh0 Hline Hbits Hsize]. unfold Qt.sizeInBytes in Hsize.
  assert (Hbpl : (Qt.bytesPerLine (Qt.rgbSwapped b) * Qt.height b
                  <= Qt.bytesPerLine b * Qt.height b)%nat)
    by (apply Nat.mul_le_mono_r; exact Hle).
  assert (Hone : (Qt.bytesPerLine b * 1 <= Qt.bytesPerLine b * Qt.height b)%nat)
    by (apply Nat.mul_le_mono_l; lia).
  assert (Hvalid : Qt.isNull (Qt.rgbSwapped b) = false)
    by (unfold Qt.isNull in *; now rewrite Hf).
  unfold encode, NotificationImage_ofSwapped, SwappedImage, NotificationImage_ofQImage,
    marshall.
  cbn [isValid width height rowstride data argument hasAlpha bitsPerSample channels].
  rewrite Hvalid, Hw, Hh. cbn [negb].
  unfold Qt.sizeInBytes. rewrite Hh.
  rewrite !toInt32_small by lia. rewrite Nat2Z.id, take_ge by lia.
  rewrite Hb. repeat split; lia.
Qed.

Lemma encode_buffer_matches_stride_witness :
  isValid (encode rgb888Pixel) = true /\
  width (encode rgb888Pixel) = Z.of_nat (Qt.width rgb888Pixel) /\
  height (encode rgb888Pixel) = Z.of_nat (Qt.height rgb888Pixel) /\
  0 <= rowstride (encode rgb888Pixel) <= Z.of_nat (Qt.bytesPerLine rgb888Pixel) /\
  Z.of_nat (length (data (encode rgb888Pixel))) =
    rowstride (encode rgb888Pixel) * height (encode rgb888Pixel) /\
  argument (encode rgb888Pixel) = Some (marshall (encode rgb888Pixel)).
Proof. exact (encode_buffer_matches_stride rgb888Pixel rgb888Pixel_wf eq_refl). Defined.

Lemma forallb_pointwise {A} (f g : A -> bool) (l : list A) :
  (forall x, In x l -> f x = g x) -> forallb f l = forallb g l.
Proof.
  induction l as [|a l IH]; intros H; [reflexivity|].
  cbn [forallb]. rewrite (H a) by (left; reflexivity).
  rewrite IH; [reflexivity|]. intros x Hx. apply H. now right.
Qed.

Lemma isGray_swapRB (c : Qt.QRgb) : Qt.isGray (Qt.swapRB c) = Qt.isGray c.
Proof.
  destruct c as [a r g b]. unfold Qt.isGray, Qt.swapRB. cbn.
  destruct (Byte.eqb r g) eqn:E1, (Byte.eqb g b) eqn:E2; cbn.
  - apply byte_dec_bl in E1, E2. subst. 
    assert (H : forall x : byte, Byte.eqb x x = true) by (intros x; now apply byte_dec_lb).
    now rewrite H.
  - destruct (Byte.eqb b g) eqn:E3; [|reflexivity].
    apply byte_dec_bl in E3. subst. 
    assert (H : forall x : byte, Byte.eqb x x = true) by (intros x; now apply byte_dec_lb).
    now rewrite H in E2.
  - destruct (Byte.eqb b g) eqn:E3; [|reflexivity].
    destruct (Byte.eqb g r) eqn:E4; [|reflexivity].
    apply byte_dec_bl in E4. subst.
    assert (H : forall x : byte, Byte.eqb x x = true) by (intros x; now apply byte_dec_lb).
    now rewrite H in E1.
  - destruct (Byte.eqb b g) eqn:E3; [|reflexivity].
    apply byte_dec_bl in E3. subst.
    assert (H : forall x : byte, Byte.eqb x x = true) by (intros x; now apply byte_dec_lb).
    now rewrite H in E2.
Qed.

(** Exchanging red and blue does not change whether a bitmap is gray. *)
Lemma allGray_rgbSwapped (b : Qt.QImage) :
  lines32 b -> Qt.allGray (Qt.rgbSwapped b) = Qt.allGray b.
Proof.
  intros Hl. unfold Qt.allGray.
  assert (Hs : Qt.width (Qt.rgbSwapped b) = Qt.width b /\
               Qt.height (Qt.rgbSwapped b) = Qt.height b)
    by (rewrite (rgbSwapped_32bit b Hl); split; reflexivity).
  destruct Hs as [-> ->].
  apply forallb_pointwise. intros y Hy%in_seq.
  apply forallb_pointwise. intros x Hx%in_seq.
  destruct (rgbSwapped_pixel b x y Hl) as [[c Hc] Hp]; [lia|lia|].
  rewrite Hp, Hc. cbn. apply isGray_swapRB.
Qed.

(** X13. What the encoded image declares for a 32-bit bitmap.  The row
    stride is four bytes per pixel and [hasAlpha] tells [Format_ARGB32].
    A bitmap whose pixels all have red = green = blue is declared as one
    channel of 32 bits; otherwise an ARGB32 bitmap is declared as 4 channels
    of 8 bits and an RGB32 bitmap as 3 channels of 10 bits, although its
    pixels occupy four bytes each. *)
Theorem encode_declares_32bit (b : Qt.QImage) :
  Qt.wf b -> Qt.is32bit (Qt.format b) ->
  rowstride (encode b) = 4 * Z.of_nat (Qt.width b) /\
  hasAlpha (encode b) = Qt.hasAlphaChannel b /\
  channels (encode b) =
    (if Qt.allGray b then 1 else if Qt.hasAlphaChannel b then 4 else 3) /\
  bitsPerSample (encode b) =
    (if Qt.allGray b then 32 else if Qt.hasAlphaChannel b then 8 else 10).
Proof.
  intros Hwf Hf. pose proof (wf_lines32 b Hwf Hf) as Hl.
  pose proof (allGray_rgbSwapped b Hl) as Hg.
  destruct Hwf as [Hw0 Hh0 Hline Hbits Hsize]. unfold Qt.sizeInBytes in Hsize.
  assert (Hone : (Qt.bytesPerLine b * 1 <= Qt.bytesPerLine b * Qt.height b)%nat)
    by (apply Nat.mul_le_mono_l; lia).
  destruct Hl as (_ & H4 & _).
  unfold encode, NotificationImage_ofSwapped, SwappedImage, NotificationImage_ofQImage.
  cbn [rowstride hasAlpha channels bitsPerSample].
  assert (Hgs : Qt.isGrayscale (Qt.rgbSwapped b) = Qt.allGray b).
  { rewrite <- Hg. unfold Qt.isGrayscale.
    assert (Hfmt : Qt.format (Qt.rgbSwapped b) = Qt.format b)
      by (unfold Qt.rgbSwapped; destruct Hf as [E | E]; now rewrite E).
    rewrite Hfmt. now destruct Hf as [-> | ->]. }
  assert (Ha : Qt.hasAlphaChannel (Qt.rgbSwapped b) = Qt.hasAlphaChannel b).
  { unfold Qt.hasAlphaChannel, Qt.rgbSwapped. destruct Hf as [E | E]; now rewrite E. }
  assert (Hd : Qt.depth (Qt.rgbSwapped b) = 32).
  { unfold Qt.depth, Qt.rgbSwapped. destruct Hf as [E | E]; now rewrite E. }
  assert (Hs : Qt.bytesPerLine (Qt.rgbSwapped b) = (4 * Qt.width b)%nat).
  { unfold Qt.rgbSwapped. destruct Hf as [E | E]; now rewrite E. }
  rewrite Hgs, Ha, Hd, Hs, toInt32_small by lia.
  split; [lia|]. split; [reflexivity|].
  destruct (Qt.allGray b); [split; reflexivity|].
  destruct (Qt.hasAlphaChannel b); split; reflexivity.
Qed.

Lemma encode_declares_32bit_witness :
  rowstride (encode argb32Image) = 4 * Z.of_nat (Qt.width argb32Image) /\
  hasAlpha (encode argb32Image) = Qt.hasAlphaChannel argb32Image /\
  channels (encode argb32Image) =
    (if Qt.allGray argb32Image then 1
     else if Qt.hasAlphaChannel argb32Image then 4 else 3) /\
  bitsPerSample (encode argb32Image) =
    (if Qt.allGray argb32Image then 32
     else if Qt.hasAlphaChannel argb32Image then 8 else 10).
Proof.
  exact (encode_declares_32bit argb32Image argb32Image_wf (or_intror eq_refl)).
Defined.

(** X14. [operator>>] reads back what [operator<<] wrote: width, height,
    row stride, alpha flag, channels, bits per sample and data arrive in
    the members they came from.  [isValid] is not part of the structure and
    keeps the value the receiving object had; received into an object that
    is not valid, the image therefore converts to the null bitmap. *)
Theorem demarshall_marshall (img img0 : NotificationImage) :
  width (demarshall (marshall img) img0) = width img /\
  height (demarshall (marshall img) img0) = height img /\
  rowstride (demarshall (marshall img) img0) = rowstride img /\
  hasAlpha (demarshall (marshall img) img0) = hasAlpha img /\
  channels (demarshall (marshall img) img0) = channels img /\
  bitsPerSample (demarshall (marshall img) img0) = bitsPerSample img /\
  data (demarshall (marshall img) img0) = data img /\
  isValid (demarshall (marshall img) img0) = isValid img0 /\
  (isValid img0 = false -> toQImage (demarshall (marshall img) img0) = Qt.null) /\
  (isValid img0 = isValid img ->
     toQImage (demarshall (marshall img) img0) = toQImage img).
Proof.
  unfold demarshall, marshall. cbn.
  repeat split.
  - intros H. unfold toQImage. cbn. now rewrite H.
  - intros H. unfold toQImage. cbn. now rewrite H.
Qed.

Lemma demarshall_marshall_witness :
  toQImage (demarshall (marshall (encode argb32Image)) NotificationImage_default) =
    Qt.null /\
  toQImage (demarshall (marshall (encode argb32Image)) (encode argb32Image)) =
    toQImage (encode argb32Image).
Proof.
  split.
  - exact (proj1 (proj2 (proj2 (proj2 (proj2 (proj2 (proj2 (proj2 (proj2
             (demarshall_marshall (encode argb32Image) NotificationImage_default)))))))))
             eq_refl).
  - exact (proj2 (proj2 (proj2 (proj2 (proj2 (proj2 (proj2 (proj2 (proj2
             (demarshall_marshall (encode argb32Image) (encode argb32Image))))))))))
             eq_refl).
Defined.

Lemma image_setImage (b : Qt.QImage) (n : DBusNotification) :
  image (setImage b n) = decode (encode b).
Proof.
  unfold image, setImage, hint. cbn [m_hints set_m_hints].
  now rewrite lookup_insert_eq.
Qed.

(** X15. [image()] returns what [setImage()] stored.  After [setImage(b)]
    with a 32-bit bitmap, [image()] is a bitmap of the same format and size
    with the same colour at every coordinate; after [setImage] of a null
    bitmap, and on a handle with no image hint, [image()] is the null
    bitmap.  [setImage] changes only the hint [image-data]: identifier,
    watcher, application name, title, message, icon, timeout, actions and
    every other hint stay as they were. *)
Theorem image_returns_what_setImage_stored (n : DBusNotification) :
  (forall b, Qt.wf b -> Qt.is32bit (Qt.format b) ->
     Qt.format (image (setImage b n)) = Qt.format b /\
     Qt.pixelIdentical (image (setImage b n)) b) /\
  (forall b, Qt.isNull b = true -> image (setImage b n) = Qt.null) /\
  (m_hints n !! QStringLiteral "image-data"%string = None ->
   m_hints n !! QStringLiteral "image_data"%string = None ->
   image n = Qt.null) /\
  (forall b,
     m_id (setImage b n) = m_id n /\
     m_watcher (setImage b n) = m_watcher n /\
     m_applicationName (setImage b n) = m_applicationName n /\
     m_title (setImage b n) = m_title n /\
     m_msg (setImage b n) = m_msg n /\
     m_icon (setImage b n) = m_icon n /\
     m_timeout (setImage b n) = m_timeout n /\
     m_actions (setImage b n) = m_actions n /\
     m_hints (setImage b n) !! QStringLiteral "image-data"%string =
       Some (VImage (encode b)) /\
     (forall key, key <> QStringLiteral "image-data"%string ->
        m_hints (setImage b n) !! key = m_hints n !! key)).
Proof.
  split; [|split; [|split]].
  - intros b Hwf Hf. rewrite image_setImage, (decode_encode_32bit b Hwf Hf).
    apply rgbSwapped_twice. now apply wf_lines32.
  - intros b Hnull. rewrite image_setImage.
    unfold decode, toQImage, encode, NotificationImage_ofSwapped, SwappedImage.
    rewrite (rgbSwapped_null b Hnull).
    unfold NotificationImage_ofQImage. cbn [isValid]. now rewrite Hnull.
  - intros H1 H2. unfold image, hint. now rewrite H1, H2.
  - intros b. unfold setImage. cbn [m_id m_watcher m_applicationName m_title m_msg
      m_icon m_timeout m_actions m_hints set_m_hints].
    repeat split.
    + apply lookup_insert_eq.
    + intros key Hne. apply lookup_insert_ne. congruence.
Qed.

Lemma image_returns_what_setImage_stored_witness :
  Qt.format (image (setImage argb32Image
                      (mkDBusNotification 0 None [] [] [] [] 0 [] ∅)))
    = Qt.Format_ARGB32 /\
  Qt.pixelIdentical
    (image (setImage argb32Image (mkDBusNotification 0 None [] [] [] [] 0 [] ∅)))
    argb32Image.
Proof.
  exact (proj1 (image_returns_what_setImage_stored
                  (mkDBusNotification 0 None [] [] [] [] 0 [] ∅))
           argb32Image argb32Image_wf (or_intror eq_refl)).
Defined.

(** ** desktoputils.cpp *)

Lemma replaceChar_no_before (before after : N) (s : QString) :
  before <> after -> ~ In before (replaceChar before after s).
Proof.
  intros Hne. induction s as [|c s IH]; [intros []|].
  cbn [replaceChar map]. intros [H|H]; [|now apply IH].
  destruct (N.eqb_spec c before); congruence.
Qed.

Lemma replaceChar_id (before after : N) (s : QString) :
  ~ In before s -> replaceChar before after s = s.
Proof.
  induction s as [|c s IH]; intros H; [reflexivity|].
  cbn [replaceChar map]. destruct (N.eqb_spec c before) as [E|E].
  - exfalso. apply H. left. exact E.
  - f_equal. apply IH. intros Hin. apply H. now right.
Qed.

(** X16. The path [openLocalFileOrDir] puts into the URL.  Under Windows it
    contains no backslash, starts with a slash when the given path is
    absolute, is one character longer than the given path in that case and
    as long otherwise, and a relative path without backslashes is passed
    as it is; on other systems every path is passed as it is. *)
Theorem urlPath_normalises (isAbsolute : QString -> bool) (path : QString) :
  ~ In 92%N (urlPath true isAbsolute path) /\
  (isAbsolute path = true -> startsWith (urlPath true isAbsolute path) [47%N] = true) /\
  length (urlPath true isAbsolute path) =
    (length path + if isAbsolute path then 1 else 0)%nat /\
  (isAbsolute path = false -> ~ In 92%N path -> urlPath true isAbsolute path = path) /\
  urlPath false isAbsolute path = path.
Proof.
  unfold urlPath.
  pose proof (replaceChar_no_before 92%N 47%N path ltac:(discriminate)) as Hno.
  assert (Hlen : length (replaceChar 92%N 47%N path) = length path)
    by apply length_map.
  destruct (isAbsolute path).
  - split; [|split; [|split; [|split]]].
    + cbn. intros [H|H]; [discriminate H|now apply Hno].
    + intros _. cbn. now destruct (replaceChar 92%N 47%N path).
    + cbn. rewrite Hlen. lia.
    + discriminate.
    + reflexivity.
  - split; [exact Hno|]. split; [discriminate|]. split; [rewrite Hlen; lia|].
    split; [|reflexivity]. intros _ H. now apply replaceChar_id.
Qed.

(** The path C:\dir, absolute by its drive letter. *)
Lemma urlPath_normalises_witness :
  startsWith (urlPath true hasDriveLetter [67%N; 58%N; 92%N; 100%N; 105%N; 114%N])
    [47%N] = true.
Proof.
  exact (proj1 (proj2 (urlPath_normalises hasDriveLetter
                         [67%N; 58%N; 92%N; 100%N; 105%N; 114%N])) eq_refl).
Defined.

(** ** Showing again after a closure *)

(** X17. A notification that the daemon has closed is shown anew.  After
    [NotificationClosed(id, _)] for a live registered handle, [update(line)]
    with the daemon reachable replaces the message by [line] and sends one
    [Notify] that replaces identifier 0, that is, creates a notification. *)
Theorem update_after_closure_creates_anew (this : Addr) (n : DBusNotification)
    (id : IDType) (reason : Z) (line : QString) (w : World) :
  pendingNotifications w !! id = Some this -> objects w !! this = Some n ->
  interfaceValid w = true ->
  exists args,
    trace (snd (update this line (handleNotificationClosed id reason w))) =
      trace (handleNotificationClosed id reason w)
        ++ [Notify (nextWatcher w) this args] /\
    arg_replacesId args = 0 /\
    arg_body args = line /\
    m_msg <$> (objects (snd (update this line (handleNotificationClosed id reason w)))
                 !! this) = Some line.
Proof.
  intros Hreg Hn Hv.
  rewrite (handleNotificationClosed_registered id reason this w Hreg).
  rewrite (alter_live _ _ _ _ Hn).
  set (w1 := mkWorld _ _ _ _ _ _).
  assert (H1 : objects w1 !! this = Some (set_m_id initialId n))
    by apply lookup_insert_eq.
  unfold update. rewrite H1.
  assert (Hm : updatedMessage (set_m_id initialId n) line = line).
  { unfold updatedMessage. now rewrite update_replaces_iff_unassigned. }
  rewrite Hm. set (n2 := set_m_msg line (set_m_id initialId n)).
  rewrite (show_dispatch this n2 (store this n2 w1) (lookup_insert_eq _ _ _)
             eq_refl Hv).
  eexists. cbn [snd trace store record newWatcher nextWatcher objects].
  split; [reflexivity|]. rewrite lookup_insert_eq. repeat split.
Qed.

(** Scenario D followed by [update("Again")]. *)
Lemma update_after_closure_creates_anew_witness :
  exists args,
    trace (snd (update 1%nat (QStringLiteral "Again"%string)
                  (handleNotificationClosed 7 2 shownWorld))) =
      trace (handleNotificationClosed 7 2 shownWorld)
        ++ [Notify (nextWatcher shownWorld) 1%nat args] /\
    arg_replacesId args = 0 /\
    arg_body args = QStringLiteral "Again"%string /\
    m_msg <$> (objects (snd (update 1%nat (QStringLiteral "Again"%string)
                               (handleNotificationClosed 7 2 shownWorld)))
                 !! 1%nat) = Some (QStringLiteral "Again"%string).
Proof.
  exact (update_after_closure_creates_anew 1%nat
           (mkDBusNotification 7 None [] (QStringLiteral "Build"%string)
              (QStringLiteral "Started"%string) [] (-1) [] ∅)
           7 2 (QStringLiteral "Again"%string) shownWorld eq_refl eq_refl eq_refl).
Defined.
